(** * fatsecret-mcp: the credential and authorization core

    A shallow embedding of [src/oauth1.ts] (the OAuth 1.0a signer and the
    request-token / access-token legs), of the [FatSecretMcpServer] class of
    [src/index.ts] (token cache, credential store, authorization tools) and
    of the session registry of [src/http-server.ts], with the start-up of
    the server from file and environment, its status report and public
    client, and the request listener of [src/server-factory.ts].

    JavaScript strings are sequences of UTF-16 code units; they are modelled
    as [list N].  A [Record<string,string>] is a [gmap] from strings to
    strings.  Asynchronous functions are modelled as resumptions that run
    their synchronous prefix on the shared state and then either finish or
    wait for the answer to one [fetch]. *)

From Stdlib Require Import ZArith NArith String Ascii Sorting.Sorted.
From stdpp Require Import base option list sorting gmap fin_maps pretty.

Local Open Scope N_scope.

(** ** JavaScript strings *)

Abbreviation jsstring := (list N).

(** An ASCII literal as a JavaScript string. *)
Fixpoint js (s : string) : jsstring :=
  match s with
  | EmptyString => []
  | String a r => N_of_ascii a :: js r
  end.

Arguments js _ : simpl never.

(** [!!s] for a string: the empty string is falsy. *)
Definition truthy (s : jsstring) : bool :=
  match s with [] => false | _ :: _ => true end.

(** [!!s] for an optional string ([undefined] and [null] are falsy). *)
Definition otruthy (s : option jsstring) : bool :=
  match s with Some s => truthy s | None => false end.

(** [s || ''] *)
Definition or_empty (s : option jsstring) : jsstring :=
  match s with Some s => s | None => [] end.

(** The comparison of [Array.prototype.sort] without a comparator: strings
    are compared code unit by code unit, a proper prefix comes first. *)
Fixpoint js_ltb (a b : jsstring) : bool :=
  match a, b with
  | [], [] => false
  | [], _ :: _ => true
  | _ :: _, [] => false
  | x :: a', y :: b' =>
      if x <? y then true else if y <? x then false else js_ltb a' b'
  end.

Definition js_le (a b : jsstring) : Prop := js_ltb b a = false.

#[global] Instance js_le_dec a b : Decision (js_le a b).
Proof. unfold js_le. apply _. Defined.

(** [a.join(sep)] *)
Fixpoint join (sep : jsstring) (l : list jsstring) : jsstring :=
  match l with
  | [] => []
  | [x] => x
  | x :: rest => x ++ sep ++ join sep rest
  end.

(** ** Platform functions

    [String.prototype.toUpperCase] (full Unicode case mapping) and the
    HMAC-SHA1 of [node:crypto] are library functions; the development is
    parametric in them. *)
Class Platform := {
  toUpperCase : jsstring → jsstring;
  (** [crypto.createHmac('sha1', key).update(data).digest('base64')] *)
  hmac_sha1_base64 : jsstring → jsstring → jsstring
}.

(** ** Errors, requests and responses *)

(** One constructor per [throw] of the sources (and per exception of the
    platform that the sources let through). *)
Inductive Error : Type :=
| ApiCredentialsNotConfigured
| OAuth2TokenRequestFailed (status : Z) (body : jsstring)
| NotAuthenticatedForProfile
| FailedToGetRequestToken (status : Z) (body : jsstring)
| InvalidRequestTokenResponse (body : jsstring)
| FailedToGetAccessToken (status : Z) (body : jsstring)
| InvalidAccessTokenResponse (body : jsstring)
| NoPendingOAuthFlow
| URIError
| FetchFailed
| JsonSyntaxError.

Inductive Outcome (A : Type) : Type :=
| Returned (a : A)
| Thrown (e : Error).
Arguments Returned {A} a.
Arguments Thrown {A} e.

Abbreviation Params := (gmap jsstring jsstring).

(** What is handed to [fetch]: the method, the URL without its query, and
    the parameters of the query string or of the form body. *)
Record Request : Type := {
  req_method : jsstring;
  req_url : jsstring;
  req_params : Params
}.

(** The body of the client-credentials answer, as [index.ts] casts it. *)
Record TokenJson : Type := {
  access_token : jsstring;
  expires_in : Z
}.

(** An HTTP answer.  [form] is [new URLSearchParams(body)] and [json] is
    [response.json()] ([None] when the body is not JSON); both are the
    platform's reading of [body]. *)
Record Response : Type := {
  status : Z;
  body : jsstring;
  form : list (jsstring * jsstring);
  json : option TokenJson
}.

(** [response.ok] *)
Definition ok (r : Response) : bool :=
  ((200 <=? status r) && (status r <=? 299))%Z.

(** [fetch] either rejects or resolves to a response. *)
Inductive FetchResult : Type :=
| Rejected
| Resolved (r : Response).

(** [URLSearchParams.prototype.get]: the first value of the name. *)
Fixpoint form_get (name : jsstring) (l : list (jsstring * jsstring)) : option jsstring :=
  match l with
  | [] => None
  | (k, v) :: rest => if decide (k = name) then Some v else form_get name rest
  end.

(** ** The state of the process *)

Record OAuth1Credentials : Type := {
  consumerKey : jsstring;
  consumerSecret : jsstring;
  accessToken : option jsstring;
  accessTokenSecret : option jsstring
}.

(** The fields of a [FatSecretMcpServer]. *)
Record Server : Type := {
  clientId : jsstring;
  clientSecret : jsstring;
  oauth2Token : option jsstring;
  oauth2TokenExpiry : Z;
  oauth1Credentials : OAuth1Credentials;
  pendingOAuth : option (jsstring * jsstring)
}.

(** The server object together with what it reads from its environment:
    the clock behind [Date.now()], the results of successive
    [crypto.randomBytes(16).toString('hex')] calls, and the parsed content
    of [~/.fatsecret-mcp/config.json] ([None]: no readable file). *)
Record World : Type := {
  now : Z;
  random : nat → jsstring;
  drawn : nat;
  disk : option Params;
  server : Server
}.

Definition set_server (s : Server) (w : World) : World :=
  {| now := now w; random := random w; drawn := drawn w; disk := disk w; server := s |}.

Definition set_disk (d : option Params) (w : World) : World :=
  {| now := now w; random := random w; drawn := drawn w; disk := d; server := server w |}.

Definition set_now (t : Z) (w : World) : World :=
  {| now := t; random := random w; drawn := drawn w; disk := disk w; server := server w |}.

(** ** Asynchronous functions

    An [async] function runs synchronously up to its first [await fetch],
    where it leaves the shared state as it then is and waits; the
    continuation runs on the state as it is when the answer arrives.
    Reading the body of an answer ([response.text()], [response.json()])
    is taken together with the arrival of the answer. *)
Inductive Step (A : Type) : Type :=
| Done (o : Outcome A) (w : World)
| Await (req : Request) (w : World) (k : FetchResult → World → Step A).
Arguments Done {A} o w.
Arguments Await {A} req w k.

Definition Async (A : Type) : Type := World → Step A.

Fixpoint bindStep {A B} (s : Step A) (f : A → Async B) : Step B :=
  match s with
  | Done (Returned a) w => f a w
  | Done (Thrown e) w => Done (Thrown e) w
  | Await req w k => Await req w (λ r w', bindStep (k r w') f)
  end.

Definition ret {A} (a : A) : Async A := λ w, Done (Returned a) w.
Definition throw {A} (e : Error) : Async A := λ w, Done (Thrown e) w.
Definition bind {A B} (m : Async A) (f : A → Async B) : Async B :=
  λ w, bindStep (m w) f.
Definition fetch (req : Request) : Async FetchResult :=
  λ w, Await req w (λ r w', Done (Returned r) w').
(** An optional value whose absence is the exception [e]. *)
Definition orThrow {A} (e : Error) (o : option A) : Async A :=
  match o with Some a => ret a | None => throw e end.

Declare Scope async_scope.
Delimit Scope async_scope with async.
Notation "x ←' m ; k" := (bind m (λ x, k))
  (at level 20, m at level 100, k at level 200, right associativity,
   only parsing) : async_scope.
Notation "m ;;' k" := (bind m (λ _, k))
  (at level 100, k at level 200, right associativity, only parsing) : async_scope.

(** ** oauth1.ts: the signer and the two token legs

    The module as [index.ts] imports it: [buildOAuth1Params] puts the OAuth
    parameters into the query string. *)

Module OAuth1.

Definition is_alpha (c : N) : bool :=
  ((65 <=? c) && (c <=? 90)) || ((97 <=? c) && (c <=? 122)).

Definition is_digit (c : N) : bool := (48 <=? c) && (c <=? 57).

(** The marks [-_.!~*'()] that [encodeURIComponent] leaves alone. *)
Definition is_uriMark (c : N) : bool :=
  existsb (N.eqb c) [45; 95; 46; 33; 126; 42; 39; 40; 41].

Definition uriUnescaped (c : N) : bool :=
  is_alpha c || is_digit c || is_uriMark c.

(** RFC 3986 unreserved characters: letters, digits and [-_.~]. *)
Definition unreserved (c : N) : bool :=
  is_alpha c || is_digit c || existsb (N.eqb c) [45; 95; 46; 126].

Definition hexDigit (d : N) : N := if d <? 10 then 48 + d else 55 + d.

(** ["%" + two upper-case hexadecimal digits] for one octet. *)
Definition pctOctet (o : N) : jsstring :=
  [37; hexDigit (o / 16); hexDigit (o mod 16)].

(** The UTF-8 octets of a code point. *)
Definition utf8 (cp : N) : list N :=
  if cp <? 128 then [cp]
  else if cp <? 2048 then [192 + cp / 64; 128 + cp mod 64]
  else if cp <? 65536 then
    [224 + cp / 4096; 128 + (cp / 64) mod 64; 128 + cp mod 64]
  else
    [240 + cp / 262144; 128 + (cp / 4096) mod 64;
     128 + (cp / 64) mod 64; 128 + cp mod 64].

Definition is_high_surrogate (c : N) : bool := (55296 <=? c) && (c <=? 56319).
Definition is_low_surrogate (c : N) : bool := (56320 <=? c) && (c <=? 57343).

Definition pctCodePoint (cp : N) : jsstring := mjoin (pctOctet <$> utf8 cp).

(** [encodeURIComponent]: [None] stands for the [URIError] thrown on an
    unpaired surrogate. *)
Fixpoint encodeURIComponent (s : jsstring) : option jsstring :=
  match s with
  | [] => Some []
  | c :: rest =>
      if uriUnescaped c then cons c <$> encodeURIComponent rest
      else if is_low_surrogate c then None
      else if is_high_surrogate c then
        match rest with
        | d :: rest' =>
            if is_low_surrogate d then
              app (pctCodePoint ((c - 55296) * 1024 + (d - 56320) + 65536))
                <$> encodeURIComponent rest'
            else None
        | [] => None
        end
      else app (pctCodePoint c) <$> encodeURIComponent rest
  end.

(** [n.toString(16).toUpperCase()], most significant digit first. *)
Fixpoint toString16Upper_aux (fuel : nat) (n : N) (acc : jsstring) : jsstring :=
  match fuel with
  | O => acc
  | S fuel' =>
      let acc' := hexDigit (n mod 16) :: acc in
      if n / 16 =? 0 then acc' else toString16Upper_aux fuel' (n / 16) acc'
  end.

Definition toString16Upper (n : N) : jsstring :=
  toString16Upper_aux (S (N.to_nat n)) n [].

(** The callback of [.replace(/[!'()*]/g, ...)]. *)
Definition replaceMark (c : N) : jsstring :=
  if existsb (N.eqb c) [33; 39; 40; 41; 42] then 37 :: toString16Upper c
  else [c].

Definition percentEncode (str : jsstring) : option jsstring :=
  s ← encodeURIComponent str; Some (mjoin (replaceMark <$> s)).

Definition OAUTH1_BASE_URL : jsstring := js "https://authentication.fatsecret.com/oauth".
Definition REQUEST_TOKEN_URL : jsstring := OAUTH1_BASE_URL ++ js "/request_token".
Definition AUTHORIZE_URL : jsstring := OAUTH1_BASE_URL ++ js "/authorize".
Definition ACCESS_TOKEN_URL : jsstring := OAUTH1_BASE_URL ++ js "/access_token".

(** [crypto.randomBytes(16).toString('hex')]: the next draw. *)
Definition generateNonce (w : World) : jsstring * World :=
  (random w (drawn w),
   {| now := now w; random := random w; drawn := S (drawn w);
      disk := disk w; server := server w |}).

(** [Math.floor(Date.now() / 1000).toString()] *)
Definition generateTimestamp (w : World) : jsstring :=
  js (pretty (now w `div` 1000)%Z).

(** [Object.keys(params)] *)
Definition Object_keys (params : Params) : list jsstring :=
  (map_to_list params).*1.

(** [params[k]] for a key of [params]. *)
Definition get (params : Params) (k : jsstring) : jsstring :=
  default [] (params !! k).

Record OAuth1RequestTokenResult : Type := {
  oauthToken : jsstring;
  oauthTokenSecret : jsstring;
  authorizationUrl : jsstring
}.

(** The fields [accessToken] and [accessTokenSecret] of the result, under
    the names of the constants they are built from. *)
Record OAuth1AccessTokenResult : Type := {
  accessTokenValue : jsstring;
  accessTokenSecretValue : jsstring
}.

Section Signer.
Context `{!Platform}.

Definition encodePair (params : Params) (k : jsstring) : option jsstring :=
  ek ← percentEncode k;
  ev ← percentEncode (get params k);
  Some (ek ++ js "=" ++ ev).

Definition paramString (params : Params) : option jsstring :=
  let sortedKeys := merge_sort js_le (Object_keys params) in
  join (js "&") <$> mapM (encodePair params) sortedKeys.

Definition buildBaseString (method url : jsstring) (params : Params) : option jsstring :=
  paramString ← paramString params;
  eurl ← percentEncode url;
  eparams ← percentEncode paramString;
  Some (toUpperCase method ++ js "&" ++ eurl ++ js "&" ++ eparams).

(** The key of the HMAC: [percentEncode(consumerSecret)&percentEncode(tokenSecret)]. *)
Definition signingKey (consumerSecret tokenSecret : jsstring) : option jsstring :=
  ecs ← percentEncode consumerSecret;
  ets ← percentEncode tokenSecret;
  Some (ecs ++ js "&" ++ ets).

Definition sign (baseString consumerSecret tokenSecret : jsstring) : option jsstring :=
  key ← signingKey consumerSecret tokenSecret;
  Some (hmac_sha1_base64 key baseString).

(** The [oauthParams] object before the signature is added. *)
Definition oauthParams0 (credentials : OAuth1Credentials) (nonce timestamp : jsstring) : Params :=
  let oauthParams : Params :=
    <[js "oauth_consumer_key" := consumerKey credentials]>
    (<[js "oauth_nonce" := nonce]>
    (<[js "oauth_signature_method" := js "HMAC-SHA1"]>
    (<[js "oauth_timestamp" := timestamp]>
    (<[js "oauth_version" := js "1.0"]> ∅)))) in
  match accessToken credentials with
  | Some token =>
      if truthy token then <[js "oauth_token" := token]> oauthParams
      else oauthParams
  | None => oauthParams
  end.

Definition buildOAuth1Params (method url : jsstring)
    (credentials : OAuth1Credentials) (extraParams : Params) : Async Params :=
  λ w,
    let '(nonce, w) := generateNonce w in
    let oauthParams := oauthParams0 credentials nonce (generateTimestamp w) in
    let allParams := extraParams ∪ oauthParams in
    match buildBaseString method url allParams with
    | None => Done (Thrown URIError) w
    | Some baseString =>
        match sign baseString (consumerSecret credentials)
                (or_empty (accessTokenSecret credentials)) with
        | None => Done (Thrown URIError) w
        | Some signature =>
            Done (Returned
              (extraParams ∪ <[js "oauth_signature" := signature]> oauthParams)) w
        end
    end.

Definition requestToken (credentials : OAuth1Credentials) : Async OAuth1RequestTokenResult :=
  (params ←' buildOAuth1Params (js "GET") REQUEST_TOKEN_URL credentials
               {[ js "oauth_callback" := js "oob" ]};
   response ←' fetch {| req_method := js "GET"; req_url := REQUEST_TOKEN_URL;
                        req_params := params |};
   match response with
   | Rejected => throw FetchFailed
   | Resolved response =>
       if negb (ok response) then
         throw (FailedToGetRequestToken (status response) (body response))
       else
         match form_get (js "oauth_token") (form response),
               form_get (js "oauth_token_secret") (form response) with
         | Some oauthToken, Some oauthTokenSecret =>
             if negb (truthy oauthToken) || negb (truthy oauthTokenSecret) then
               throw (InvalidRequestTokenResponse (body response))
             else
               ret {| oauthToken := oauthToken;
                      oauthTokenSecret := oauthTokenSecret;
                      authorizationUrl :=
                        AUTHORIZE_URL ++ js "?oauth_token=" ++ oauthToken |}
         | _, _ => throw (InvalidRequestTokenResponse (body response))
         end
   end)%async.

Definition accessToken (credentials : OAuth1Credentials)
    (oauthToken oauthTokenSecret verifier : jsstring) : Async OAuth1AccessTokenResult :=
  let tokenCredentials :=
    {| consumerKey := consumerKey credentials;
       consumerSecret := consumerSecret credentials;
       accessToken := Some oauthToken;
       accessTokenSecret := Some oauthTokenSecret |} in
  (params ←' buildOAuth1Params (js "GET") ACCESS_TOKEN_URL tokenCredentials
               {[ js "oauth_verifier" := verifier ]};
   response ←' fetch {| req_method := js "GET"; req_url := ACCESS_TOKEN_URL;
                        req_params := params |};
   match response with
   | Rejected => throw FetchFailed
   | Resolved response =>
       if negb (ok response) then
         throw (FailedToGetAccessToken (status response) (body response))
       else
         match form_get (js "oauth_token") (form response),
               form_get (js "oauth_token_secret") (form response) with
         | Some token, Some secret =>
             if negb (truthy token) || negb (truthy secret) then
               throw (InvalidAccessTokenResponse (body response))
             else
               ret {| accessTokenValue := token; accessTokenSecretValue := secret |}
         | _, _ => throw (InvalidAccessTokenResponse (body response))
         end
   end)%async.
End Signer.

End OAuth1.

(** ** index.ts: the server object *)

Module FatSecretMcpServer.

Definition BASE_URL : jsstring := js "https://platform.fatsecret.com/rest".
Definition TOKEN_URL : jsstring := js "https://oauth.fatsecret.com/connect/token".

(** [this.x = v] on the fields that the tools assign. *)
Definition set_oauth2 (token : option jsstring) (expiry : Z) (s : Server) : Server :=
  {| clientId := clientId s; clientSecret := clientSecret s;
     oauth2Token := token; oauth2TokenExpiry := expiry;
     oauth1Credentials := oauth1Credentials s; pendingOAuth := pendingOAuth s |}.

Definition set_pendingOAuth (p : option (jsstring * jsstring)) (s : Server) : Server :=
  {| clientId := clientId s; clientSecret := clientSecret s;
     oauth2Token := oauth2Token s; oauth2TokenExpiry := oauth2TokenExpiry s;
     oauth1Credentials := oauth1Credentials s; pendingOAuth := p |}.

Definition set_oauth1Credentials (c : OAuth1Credentials) (s : Server) : Server :=
  {| clientId := clientId s; clientSecret := clientSecret s;
     oauth2Token := oauth2Token s; oauth2TokenExpiry := oauth2TokenExpiry s;
     oauth1Credentials := c; pendingOAuth := pendingOAuth s |}.

Definition set_client (id secret : jsstring) (s : Server) : Server :=
  {| clientId := id; clientSecret := secret;
     oauth2Token := oauth2Token s; oauth2TokenExpiry := oauth2TokenExpiry s;
     oauth1Credentials := oauth1Credentials s; pendingOAuth := pendingOAuth s |}.

Definition modify (f : Server → Server) : Async unit :=
  λ w, Done (Returned tt) (set_server (f (server w)) w).

(** [saveConfig]: the existing file (an empty object when it cannot be
    read) with the updates spread over it, written back.  [mkdirSync] and
    [writeFileSync] are taken to succeed. *)
Definition saveConfig (updates : Params) : Async unit :=
  λ w,
    let existing : Params := default ∅ (disk w) in
    let merged : Params := updates ∪ existing in
    Done (Returned tt) (set_disk (Some merged) w).

Definition hasApiCredentials (s : Server) : bool :=
  truthy (clientId s) && truthy (clientSecret s)
  && truthy (consumerSecret (oauth1Credentials s)).

Definition ensureApiCredentials : Async unit :=
  λ w,
    if negb (hasApiCredentials (server w)) then throw ApiCredentialsNotConfigured w
    else ret tt w.

(** The client-credentials grant sent to the token endpoint. *)
Definition grantRequest (s : Server) : Request :=
  {| req_method := js "POST";
     req_url := TOKEN_URL;
     req_params :=
       <[js "grant_type" := js "client_credentials"]>
       (<[js "client_id" := clientId s]>
       (<[js "client_secret" := clientSecret s]>
       (<[js "scope" := js "basic"]> ∅))) |}.

Definition getOAuth2Token : Async jsstring :=
  (ensureApiCredentials ;;'
   (λ w,
      if otruthy (oauth2Token (server w))
         && (now w <? oauth2TokenExpiry (server w))%Z
      then ret (or_empty (oauth2Token (server w))) w
      else
        (response ←' fetch (grantRequest (server w));
         match response with
         | Rejected => throw FetchFailed
         | Resolved response =>
             if negb (ok response) then
               throw (OAuth2TokenRequestFailed (status response) (body response))
             else
               data ←' orThrow JsonSyntaxError (json response);
               (λ w,
                  let expiry := (now w + (expires_in data - 60) * 1000)%Z in
                  Done (Returned (access_token data))
                    (set_server
                       (set_oauth2 (Some (access_token data)) expiry (server w)) w))
         end) w))%async.

Definition ensureProfileAuth : Async unit :=
  (ensureApiCredentials ;;'
   (λ w,
      if negb (otruthy (accessToken (oauth1Credentials (server w))))
         || negb (otruthy (accessTokenSecret (oauth1Credentials (server w))))
      then throw NotAuthenticatedForProfile w
      else ret tt w))%async.

Section Tools.
Context `{!Platform}.

(** [oauth1Middleware.onRequest]: [request] carries the method, the URL
    without its query ([url.origin + url.pathname]) and the query
    parameters; the answer is the request that is then fetched. *)
Definition oauth1Middleware (request : Request) : Async Request :=
  (ensureProfileAuth ;;'
   (λ w,
      (allParams ←' OAuth1.buildOAuth1Params (req_method request) (req_url request)
                       (oauth1Credentials (server w)) (req_params request);
       ret {| req_method := req_method request; req_url := req_url request;
              req_params := allParams |}) w))%async.

(** A call through [profileClient]: the middleware, then the fetch. *)
Definition profileClient (method path : jsstring) (query : Params) : Async FetchResult :=
  (request ←' oauth1Middleware {| req_method := method; req_url := BASE_URL ++ path;
                                  req_params := query |};
   fetch request)%async.

Definition setup_credentials (client_id client_secret consumer_secret : jsstring) : Async unit :=
  (modify (set_client client_id client_secret) ;;'
   modify (λ s, set_oauth1Credentials
                  {| consumerKey := client_id;
                     consumerSecret := consumer_secret;
                     accessToken := accessToken (oauth1Credentials s);
                     accessTokenSecret := accessTokenSecret (oauth1Credentials s) |} s) ;;'
   modify (set_oauth2 None 0) ;;'
   saveConfig (<[js "clientId" := client_id]>
               (<[js "clientSecret" := client_secret]>
               (<[js "consumerSecret" := consumer_secret]> ∅))))%async.

Definition start_auth : Async jsstring :=
  (ensureApiCredentials ;;'
   (λ w,
      (result ←' OAuth1.requestToken (oauth1Credentials (server w));
       modify (set_pendingOAuth
                 (Some (OAuth1.oauthToken result, OAuth1.oauthTokenSecret result))) ;;'
       ret (OAuth1.authorizationUrl result)) w))%async.

Definition complete_auth (verifier : jsstring) : Async unit :=
  λ w,
    match pendingOAuth (server w) with
    | None => throw NoPendingOAuthFlow w
    | Some (token, secret) =>
        (result ←' OAuth1.accessToken (oauth1Credentials (server w)) token secret verifier;
         saveConfig (<[js "accessToken" := OAuth1.accessTokenValue result]>
                     (<[js "accessTokenSecret" := OAuth1.accessTokenSecretValue result]> ∅)) ;;'
         modify (λ s, set_oauth1Credentials
                        {| consumerKey := consumerKey (oauth1Credentials s);
                           consumerSecret := consumerSecret (oauth1Credentials s);
                           accessToken := Some (OAuth1.accessTokenValue result);
                           accessTokenSecret := Some (OAuth1.accessTokenSecretValue result) |} s) ;;'
         modify (set_pendingOAuth None))%async w
    end.
End Tools.

End FatSecretMcpServer.

(** ** http-server.ts: the session registry *)

Module HttpServer.

(** A registered session: its own server object and the identifier its
    transport carries. *)
Record Session : Type := {
  session_server : Server;
  transport_sessionId : option jsstring
}.

Abbreviation Sessions := (gmap jsstring Session).

(** What [handleMcpRequest] does with a request: hand it to the transport
    of a registered session, answer it itself, or set up a new session. *)
Inductive Routing : Type :=
| HandledBy (session : Session)
| Answered (httpStatus : Z) (errorCode : Z) (message : jsstring)
| NewSession.

(** [handleMcpRequest], by the [mcp-session-id] header of the request
    ([None]: no such header). *)
Definition handleMcpRequest (sessions : Sessions) (sessionId : option jsstring) : Routing :=
  if otruthy sessionId then
    match sessions !! or_empty sessionId with
    | Some session => HandledBy session
    | None => Answered 404 (-32000) (js "Session not found. Client must reinitialize.")
    end
  else NewSession.

(** [onsessioninitialized] *)
Definition onsessioninitialized (newSessionId : jsstring) (session : Session)
    (sessions : Sessions) : Sessions :=
  <[newSessionId := session]> sessions.

(** [transport.onclose], by the identifier of the transport. *)
Definition onclose (sessionId : option jsstring) (sessions : Sessions) : Sessions :=
  if otruthy sessionId then delete (or_empty sessionId) sessions else sessions.

End HttpServer.

(** ** Running asynchronous functions *)

(** What an observer of one call sees: its outcome ([None] while it still
    waits), the state it leaves, and the requests it sent. *)
Record Run (A : Type) : Type := {
  result : option (Outcome A);
  final : World;
  sent : list Request
}.
Arguments result {A} r.
Arguments final {A} r.
Arguments sent {A} r.

(** One call run alone: each [fetch] is answered by the next element of
    [net], an answer together with the time at which it arrives. *)
Fixpoint run {A} (s : Step A) (net : list (Z * FetchResult)) : Run A :=
  match s with
  | Done o w => {| result := Some o; final := w; sent := [] |}
  | Await req w k =>
      match net with
      | [] => {| result := None; final := w; sent := [req] |}
      | (t, r) :: net' =>
          let rest := run (k r (set_now t w)) net' in
          {| result := result rest; final := final rest; sent := req :: sent rest |}
      end
  end.

Definition exec {A} (m : Async A) (w : World) (net : list (Z * FetchResult)) : Run A :=
  run (m w) net.

(** Calls in flight at once.  A call that is started runs its synchronous
    prefix on the shared state; an answer that arrives resumes the call it
    belongs to, on the shared state as it then is. *)
Inductive Caller (A : Type) : Type :=
| Waiting (k : FetchResult → World → Step A)
| Finished (o : Outcome A).
Arguments Waiting {A} k.
Arguments Finished {A} o.

Record Sched (A : Type) : Type := {
  shared : World;
  callers : list (Caller A);
  wire : list Request
}.
Arguments shared {A} s.
Arguments callers {A} s.
Arguments wire {A} s.

Definition settle {A} (s : Step A) : World * Caller A * list Request :=
  match s with
  | Done o w => (w, Finished o, [])
  | Await req w k => (w, Waiting k, [req])
  end.

(** Caller number [length (callers st)] starts [m] at time [t]. *)
Definition spawn {A} (m : Async A) (t : Z) (st : Sched A) : Sched A :=
  let '(w, c, reqs) := settle (m (set_now t (shared st))) in
  {| shared := w; callers := callers st ++ [c]; wire := wire st ++ reqs |}.

(** The answer [r] to the pending request of caller [i] arrives at time [t]. *)
Definition deliver {A} (i : nat) (r : FetchResult) (t : Z) (st : Sched A) : Sched A :=
  match callers st !! i with
  | Some (Waiting k) =>
      let '(w, c, reqs) := settle (k r (set_now t (shared st))) in
      {| shared := w; callers := <[i := c]> (callers st); wire := wire st ++ reqs |}
  | _ => st
  end.

(** [n] calls of [m] started one after the other, call [i] at time [ts i],
    before any answer arrives. *)
Fixpoint spawn_all {A} (m : Async A) (ts : nat → Z) (n : nat) (st : Sched A) : Sched A :=
  match n with
  | O => st
  | S n' => spawn m (ts n') (spawn_all m ts n' st)
  end.

(** The answers arrive in the order [order]: caller [i] gets [answers i]
    at time [td i]. *)
Definition deliver_all {A} (answers : nat → FetchResult) (td : nat → Z)
    (order : list nat) (st : Sched A) : Sched A :=
  foldl (λ st i, deliver i (answers i) (td i) st) st order.

Definition idle {A} (w : World) : Sched A :=
  {| shared := w; callers := []; wire := [] |}.

(** ** index.ts: start-up, status report and the public client *)

Module Index.
Import FatSecretMcpServer.

(** The three variables that [loadConfig] reads from [process.env]
    ([None]: the variable is not set). *)
Record Env : Type := {
  FATSECRET_CLIENT_ID : option jsstring;
  FATSECRET_CLIENT_SECRET : option jsstring;
  FATSECRET_CONSUMER_SECRET : option jsstring
}.

(** [a || b || ''] *)
Definition firstTruthy (a b : option jsstring) : jsstring :=
  if otruthy a then or_empty a else if otruthy b then or_empty b else [].

(** [loadConfig]: the file (an empty object when it cannot be read), with
    the environment laid over the three credentials; the user token comes
    from the file alone. *)
Definition loadConfig (env : Env) : Async unit :=
  λ w,
    let fileConfig : Params := default ∅ (disk w) in
    let clientId := firstTruthy (FATSECRET_CLIENT_ID env) (fileConfig !! js "clientId") in
    let clientSecret :=
      firstTruthy (FATSECRET_CLIENT_SECRET env) (fileConfig !! js "clientSecret") in
    let consumerSecret :=
      firstTruthy (FATSECRET_CONSUMER_SECRET env) (fileConfig !! js "consumerSecret") in
    (modify (set_client clientId clientSecret) ;;'
     modify (set_oauth1Credentials
               {| consumerKey := clientId;
                  consumerSecret := consumerSecret;
                  accessToken := fileConfig !! js "accessToken";
                  accessTokenSecret := fileConfig !! js "accessTokenSecret" |}))%async w.

(** The part of the constructor that sets the credential state: the field
    initialisers, then [loadConfig]. *)
Definition constructor (env : Env) : Async unit :=
  (modify (λ _,
     {| clientId := []; clientSecret := [];
        oauth2Token := None; oauth2TokenExpiry := 0;
        oauth1Credentials :=
          {| consumerKey := []; consumerSecret := [];
             accessToken := None; accessTokenSecret := None |};
        pendingOAuth := None |}) ;;'
   loadConfig env)%async.

(** What [check_auth_status] reports (the message and the path of the
    configuration file are left out). *)
Record AuthStatus : Type := {
  credentials_configured : bool;
  profile_authenticated : bool
}.

Definition check_auth_status : Async AuthStatus :=
  λ w,
    let hasCredentials := hasApiCredentials (server w) in
    let hasTokens :=
      otruthy (accessToken (oauth1Credentials (server w)))
      && otruthy (accessTokenSecret (oauth1Credentials (server w))) in
    if negb hasCredentials then
      ret {| credentials_configured := false; profile_authenticated := false |} w
    else
      ret {| credentials_configured := true; profile_authenticated := hasTokens |} w.

(** [oauth2Middleware.onRequest]: the request as it is, together with the
    value that is set as its [Authorization] header. *)
Definition oauth2Middleware (request : Request) : Async (Request * jsstring) :=
  (token ←' getOAuth2Token;
   ret (request, js "Bearer " ++ token))%async.

(** A call through [publicClient]: the middleware, then the fetch of the
    request (which carries the header the middleware computed). *)
Definition publicClient (method path : jsstring) (query : Params) : Async FetchResult :=
  (authorized ←' oauth2Middleware {| req_method := method; req_url := BASE_URL ++ path;
                                     req_params := query |};
   fetch authorized.1)%async.

End Index.

(** ** http-server.ts and server-factory.ts: the HTTP front *)

Module HttpFront.
Import HttpServer.

(** [getSessionCount] *)
Definition getSessionCount (sessions : Sessions) : nat := size sessions.

(** [handleHealthRequest]: status 200 and the number of sessions. *)
Definition handleHealthRequest (sessions : Sessions) : Z * nat :=
  (200%Z, size sessions).

(** What [createServer] looks at in a request: the method, the path of the
    URL, the [mcp-session-id] header, and the body as [readBody] delivers
    it ([None]: reading fails). *)
Record HttpRequest : Type := {
  http_method : jsstring;
  pathname : jsstring;
  mcp_session_id : option jsstring;
  rawBody : option jsstring
}.

(** What the request listener of [createServer] does: answer itself (204
    to a preflight, 400 with JSON-RPC code -32700, 404) or hand the
    request to one of the two handlers.  Every answer carries the same
    CORS headers, which are left out. *)
Inductive Reply (A B : Type) : Type :=
| Preflight
| ByHealthHandler (b : B)
| ParseError
| ByMcpHandler (a : A)
| NotFound.
Arguments Preflight {A B}.
Arguments ByHealthHandler {A B} b.
Arguments ParseError {A B}.
Arguments ByMcpHandler {A B} a.
Arguments NotFound {A B}.

Section Listener.
Context {J A B : Type}.
(** [JSON.parse] ([None]: it throws). *)
Variable JSON_parse : jsstring → option J.
(** The handlers; the MCP handler gets the request and its parsed body
    ([None]: no body was attached). *)
Variable mcpHandler : HttpRequest → option J → A.
Variable healthHandler : HttpRequest → B.

Definition createServer (req : HttpRequest) : Reply A B :=
  if decide (http_method req = js "OPTIONS") then Preflight
  else if bool_decide (pathname req = js "/health")
          && bool_decide (http_method req = js "GET") then
    ByHealthHandler (healthHandler req)
  else if decide (pathname req = js "/mcp") then
    if decide (http_method req = js "POST") then
      match rawBody req ≫= JSON_parse with
      | Some body => ByMcpHandler (mcpHandler req (Some body))
      | None => ParseError
      end
    else ByMcpHandler (mcpHandler req None)
  else NotFound.
End Listener.

(** [startServer]: [createServer(handleMcpRequest, handleHealthRequest)]
    over the registry as it is when the request arrives. *)
Definition startServer {J} (JSON_parse : jsstring → option J) (sessions : Sessions)
    (req : HttpRequest) : Reply Routing (Z * nat) :=
  createServer JSON_parse
    (λ req _, handleMcpRequest sessions (mcp_session_id req))
    (λ _, handleHealthRequest sessions) req.

End HttpFront.

(** ** Notions used in the statements *)

(** The cached bearer token is served at time [t]: there is one, and the
    stored deadline is still ahead. *)
Definition cached (t : Z) (s : Server) : bool :=
  otruthy (oauth2Token s) && (t <? oauth2TokenExpiry s)%Z.

(** The answer to a request-token or access-token call is a success: the
    status is in the 200s and the body carries a non-empty [oauth_token]
    and a non-empty [oauth_token_secret]. *)
Definition grantedToken (r : FetchResult) : option (jsstring * jsstring) :=
  match r with
  | Rejected => None
  | Resolved response =>
      if ok response then
        match form_get (js "oauth_token") (form response),
              form_get (js "oauth_token_secret") (form response) with
        | Some t, Some s => if truthy t && truthy s then Some (t, s) else None
        | _, _ => None
        end
      else None
  end.

(** A character of an encoded string: unreserved, or the percent sign. *)
Definition encodedChar (c : N) : Prop := OAuth1.unreserved c = true ∨ c = 37.

(** [String.prototype.isWellFormed]: no surrogate stands alone. *)
Fixpoint isWellFormed (s : jsstring) : bool :=
  match s with
  | [] => true
  | c :: rest =>
      if OAuth1.is_low_surrogate c then false
      else if OAuth1.is_high_surrogate c then
        match rest with
        | d :: rest' => OAuth1.is_low_surrogate d && isWellFormed rest'
        | [] => false
        end
      else isWellFormed rest
  end.

(** The error with which a token leg answers a response that grants no
    token: a rejected fetch, a status outside the 200s (with status and
    body), or a body without a non-empty token and secret (with the body). *)
Definition legError (failed : Z → jsstring → Error) (invalid : jsstring → Error)
    (r : FetchResult) : Error :=
  match r with
  | Rejected => FetchFailed
  | Resolved response =>
      if ok response then invalid (body response)
      else failed (status response) (body response)
  end.


(** The world in which a token leg leaves the state when its answer
    arrives at time [t]: one nonce drawn, the clock at [t]. *)
Definition answered (t : Z) (w : World) : World := set_now t (OAuth1.generateNonce w).2.

(** The state after a [complete_auth] that stored the token [at] with
    secret [ats]. *)
Definition authorized (at_ ats : jsstring) (w : World) : World :=
  set_server
    (FatSecretMcpServer.set_pendingOAuth None
       (FatSecretMcpServer.set_oauth1Credentials
          {| consumerKey := consumerKey (oauth1Credentials (server w));
             consumerSecret := consumerSecret (oauth1Credentials (server w));
             accessToken := Some at_; accessTokenSecret := Some ats |} (server w)))
    (set_disk (Some (<[js "accessToken" := at_]> (<[js "accessTokenSecret" := ats]> ∅)
                     ∪ default ∅ (disk w))) w).

(** ** Sample data for evaluating the definitions *)

Definition asciiUpper (s : jsstring) : jsstring :=
  (λ c, if (97 <=? c) && (c <=? 122) then c - 32 else c) <$> s.

(** ASCII upper-casing, and a stand-in for the HMAC that keeps its key and
    its data readable. *)
Definition samplePlatform : Platform :=
  {| toUpperCase := asciiUpper;
     hmac_sha1_base64 := λ key data, key ++ js "#" ++ data |}.

(** A server with API credentials and nothing else. *)
Definition sampleServer : Server :=
  {| clientId := js "ck"; clientSecret := js "cs2";
     oauth2Token := None; oauth2TokenExpiry := 0;
     oauth1Credentials :=
       {| consumerKey := js "ck"; consumerSecret := js "cs";
          accessToken := None; accessTokenSecret := None |};
     pendingOAuth := None |}.

Definition sampleWorld : World :=
  {| now := 1700000000000; random := λ n, js "0123456789abcdef" ++ js (pretty n);
     drawn := 0; disk := None; server := sampleServer |}.

(** The two-key parameter map [{ "a-": "1", "a/": "2" }]. *)
Definition slashParams : Params :=
  <[js "a-" := js "1"]> (<[js "a/" := js "2"]> ∅).

(** A configured server holding the bearer token [T] with stored deadline
    100 s, looked at when the clock shows 50 s. *)
Definition marginWorld : World :=
  {| now := 50000; random := random sampleWorld; drawn := 0; disk := None;
     server := FatSecretMcpServer.set_oauth2 (Some (js "T")) 100000 sampleServer |}.

(** A server as it starts without configuration file and environment. *)
Definition blankServer : Server :=
  {| clientId := []; clientSecret := [];
     oauth2Token := None; oauth2TokenExpiry := 0;
     oauth1Credentials :=
       {| consumerKey := []; consumerSecret := [];
          accessToken := None; accessTokenSecret := None |};
     pendingOAuth := None |}.

Definition blankWorld : World := set_server blankServer sampleWorld.

(** A configured server that already holds the user token [tok] with
    secret [sec]. *)
Definition authorizedServer : Server :=
  FatSecretMcpServer.set_oauth1Credentials
    {| consumerKey := js "ck"; consumerSecret := js "cs";
       accessToken := Some (js "tok"); accessTokenSecret := Some (js "sec") |}
    sampleServer.

Definition authorizedWorld : World := set_server authorizedServer sampleWorld.

(** A successful answer of the request-token or access-token endpoint
    carrying token [t] and secret [s]. *)
Definition tokenAnswer (t s : jsstring) : FetchResult :=
  Resolved {| status := 200;
              body := js "oauth_token=" ++ t ++ js "&oauth_token_secret=" ++ s;
              form := [(js "oauth_token", t); (js "oauth_token_secret", s)];
              json := None |}.

(** A successful answer of the token endpoint: caller [i] is granted the
    bearer token [T<i>] for one hour. *)
Definition grantAnswer (i : nat) : Response :=
  {| status := 200; body := []; form := [];
     json := Some {| access_token := js "T" ++ js (pretty i); expires_in := 3600 |} |}.

(** An environment that sets none of the three variables. *)
Definition noEnv : Index.Env :=
  {| Index.FATSECRET_CLIENT_ID := None; Index.FATSECRET_CLIENT_SECRET := None;
     Index.FATSECRET_CONSUMER_SECRET := None |}.

(** A configured server on which the request token [rt] with secret [rs]
    is pending. *)
Definition pendingWorld : World :=
  set_server (FatSecretMcpServer.set_pendingOAuth (Some (js "rt", js "rs")) sampleServer)
    sampleWorld.

(** A stand-in for [JSON.parse] that accepts the empty object only. *)
Definition sampleParse (s : jsstring) : option unit :=
  if decide (s = js "{}") then Some tt else None.

(** A token of one minute. *)
Definition shortGrant : Response :=
  {| status := 200; body := []; form := [];
     json := Some {| access_token := js "T"; expires_in := 60 |} |}.

(** * Properties *)

(** Distinct literals are distinct keys. *)
Ltac js_neq :=
  let H := fresh in intros H; vm_compute in H; discriminate H.

Ltac js_lookup :=
  repeat first
    [ rewrite lookup_insert_eq
    | rewrite lookup_insert_ne by js_neq
    | rewrite lookup_singleton_eq
    | rewrite lookup_singleton_ne by js_neq
    | rewrite lookup_empty ].

(** ** The signer *)

Lemma js_ltb_irrefl (a : jsstring) : js_ltb a a = false.
Proof.
  induction a as [|x a IH]; [reflexivity|].
  simpl. rewrite N.ltb_irrefl. exact IH.
Qed.

Lemma js_ltb_asym (a b : jsstring) : js_ltb a b = true → js_ltb b a = false.
Proof.
  revert b. induction a as [|x a IH]; intros [|y b]; simpl; try done.
  destruct (x <? y) eqn:Hxy, (y <? x) eqn:Hyx; try done.
  - apply N.ltb_lt in Hxy. apply N.ltb_lt in Hyx. lia.
  - apply IH.
Qed.

#[global] Instance js_le_total : Total js_le.
Proof.
  intros a b. unfold js_le.
  destruct (js_ltb b a) eqn:Hba; [right; by apply js_ltb_asym | by left].
Qed.

(** The keys are visited in ascending code-unit order of the keys as they
    are, before any encoding. *)
Lemma sortedKeys_Sorted (params : Params) :
  Sorted js_le (merge_sort js_le (OAuth1.Object_keys params)).
Proof. apply (Sorted_merge_sort js_le). Qed.

Lemma sortedKeys_Permutation (params : Params) :
  merge_sort js_le (OAuth1.Object_keys params) ≡ₚ OAuth1.Object_keys params.
Proof. apply merge_sort_Permutation. Qed.

Lemma encodeURIComponent_unreserved (s : jsstring) :
  forallb OAuth1.unreserved s = true → OAuth1.encodeURIComponent s = Some s.
Proof.
  induction s as [|c s IH]; [done|].
  simpl. intros [Hc Hs]%andb_prop.
  assert (Hu : OAuth1.uriUnescaped c = true).
  { unfold OAuth1.unreserved in Hc. unfold OAuth1.uriUnescaped, OAuth1.is_uriMark.
    destruct (OAuth1.is_alpha c), (OAuth1.is_digit c); try reflexivity.
    simpl in *.
    destruct (c =? 45), (c =? 95), (c =? 46), (c =? 126); simpl in *;
      rewrite ?orb_true_r; done. }
  rewrite Hu, (IH Hs). reflexivity.
Qed.

Lemma replaceMark_unreserved (s : jsstring) :
  forallb OAuth1.unreserved s = true → mjoin (OAuth1.replaceMark <$> s) = s.
Proof.
  induction s as [|c s IH]; [done|].
  intros [Hc Hs]%andb_prop.
  assert (Hm : OAuth1.replaceMark c = [c]).
  { unfold OAuth1.replaceMark.
    unfold OAuth1.unreserved, OAuth1.is_alpha, OAuth1.is_digit in Hc. simpl in *.
    repeat match goal with
           | |- context [c =? ?n] => destruct (N.eqb_spec c n); [subst; done|]
           end.
    done. }
  rewrite fmap_cons. change (OAuth1.replaceMark c ++ mjoin (OAuth1.replaceMark <$> s) = c :: s).
  rewrite Hm, (IH Hs). reflexivity.
Qed.

(** Letters, digits and [-_.~] are never encoded. *)
Lemma percentEncode_unreserved (s : jsstring) :
  forallb OAuth1.unreserved s = true → OAuth1.percentEncode s = Some s.
Proof.
  intros Hs. unfold OAuth1.percentEncode.
  rewrite (encodeURIComponent_unreserved s Hs). simpl.
  by rewrite (replaceMark_unreserved s Hs).
Qed.

(** A space becomes [%20], and [!*'()] become their hexadecimal escapes. *)
Lemma percentEncode_marks :
  OAuth1.percentEncode (js " !*'()+") = Some (js "%20%21%2A%27%28%29%2B").
Proof. vm_compute. reflexivity. Qed.

Lemma hexDigit_unreserved (d : N) : d < 16 → OAuth1.unreserved (OAuth1.hexDigit d) = true.
Proof.
  intros Hd. rewrite <- (N2Nat.id d).
  assert (Hn : (N.to_nat d < 16)%nat) by lia.
  revert Hn. generalize (N.to_nat d). intros n Hn.
  do 16 (destruct n as [|n]; [reflexivity|]). lia.
Qed.

Lemma pctOctet_encoded (o : N) : o < 256 → Forall encodedChar (OAuth1.pctOctet o).
Proof.
  intros Ho. unfold OAuth1.pctOctet.
  apply Forall_cons. split; [by right|].
  apply Forall_cons. split.
  { left. apply hexDigit_unreserved. apply N.Div0.div_lt_upper_bound. lia. }
  apply Forall_cons. split; [|constructor].
  left. apply hexDigit_unreserved. apply N.mod_lt. lia.
Qed.

Lemma utf8_octets (cp : N) : cp < 1114112 → Forall (λ o, o < 256) (OAuth1.utf8 cp).
Proof.
  intros Hcp. unfold OAuth1.utf8.
  assert (H64 : ∀ x, 128 + x mod 64 < 256).
  { intros x. pose proof (N.mod_lt x 64). lia. }
  destruct (N.ltb_spec cp 128); [repeat (apply Forall_cons; split); [lia|constructor]|].
  destruct (N.ltb_spec cp 2048).
  { repeat (apply Forall_cons; split); [|apply H64|constructor].
    assert (cp / 64 < 32) by (apply N.Div0.div_lt_upper_bound; lia). lia. }
  destruct (N.ltb_spec cp 65536).
  { repeat (apply Forall_cons; split); [|apply H64|apply H64|constructor].
    assert (cp / 4096 < 16) by (apply N.Div0.div_lt_upper_bound; lia). lia. }
  repeat (apply Forall_cons; split); [|apply H64|apply H64|apply H64|constructor].
  assert (cp / 262144 < 5) by (apply N.Div0.div_lt_upper_bound; lia). lia.
Qed.

Lemma pctCodePoint_encoded (cp : N) : cp < 1114112 → Forall encodedChar (OAuth1.pctCodePoint cp).
Proof.
  intros Hcp. unfold OAuth1.pctCodePoint.
  induction (utf8_octets cp Hcp) as [|o l Ho _ IH]; [constructor|].
  rewrite fmap_cons. change (Forall encodedChar (OAuth1.pctOctet o ++ mjoin (OAuth1.pctOctet <$> l))).
  apply Forall_app. split; [by apply pctOctet_encoded|exact IH].
Qed.

Lemma uriUnescaped_not_mark (c : N) :
  OAuth1.uriUnescaped c = true →
  existsb (N.eqb c) [33; 39; 40; 41; 42] = false →
  OAuth1.unreserved c = true.
Proof.
  unfold OAuth1.uriUnescaped, OAuth1.unreserved, OAuth1.is_uriMark.
  destruct (OAuth1.is_alpha c), (OAuth1.is_digit c); try done.
  simpl.
  destruct (c =? 45), (c =? 95), (c =? 46), (c =? 126),
    (c =? 33), (c =? 42), (c =? 39), (c =? 40), (c =? 41); done.
Qed.

Lemma replaceMark_encoded (c : N) :
  OAuth1.uriUnescaped c = true ∨ c = 37 → Forall encodedChar (OAuth1.replaceMark c).
Proof.
  intros Hc. unfold OAuth1.replaceMark.
  destruct (existsb (N.eqb c) [33; 39; 40; 41; 42]) eqn:Hmark.
  - simpl in Hmark.
    repeat match type of Hmark with
           | (c =? ?n) || _ = true =>
               destruct (N.eqb_spec c n) as [->|_];
               [clear;
                let l := eval vm_compute in (OAuth1.toString16Upper n) in
                change (OAuth1.toString16Upper n) with l;
                repeat (apply Forall_cons; split);
                first [ by apply Forall_nil | by right | left; reflexivity ]
               | simpl in Hmark]
           end.
    done.
  - apply Forall_cons. split; [|constructor].
    destruct Hc as [Hc | ->]; [left; by apply uriUnescaped_not_mark|by right].
Qed.

Lemma encodeURIComponent_chars (s e : jsstring) :
  Forall (λ c, c < 65536) s →
  OAuth1.encodeURIComponent s = Some e →
  Forall (λ c, OAuth1.uriUnescaped c = true ∨ c = 37) e.
Proof.
  assert (Hpct : ∀ cp, cp < 1114112 →
            Forall (λ c, OAuth1.uriUnescaped c = true ∨ c = 37) (OAuth1.pctCodePoint cp)).
  { intros cp Hcp. eapply Forall_impl; [by apply pctCodePoint_encoded|].
    intros c [Hc | ->]; [left|by right].
    unfold OAuth1.unreserved in Hc. unfold OAuth1.uriUnescaped, OAuth1.is_uriMark.
    destruct (OAuth1.is_alpha c), (OAuth1.is_digit c); try done. simpl in *.
    destruct (c =? 45), (c =? 95), (c =? 46), (c =? 126); simpl in *;
      rewrite ?orb_true_r; done. }
  revert e.
  cut (∀ e, (Forall (λ c, c < 65536) s → OAuth1.encodeURIComponent s = Some e →
             Forall (λ c, OAuth1.uriUnescaped c = true ∨ c = 37) e)
            ∧ (∀ c, Forall (λ c, c < 65536) (c :: s) →
                 OAuth1.encodeURIComponent (c :: s) = Some e →
                 Forall (λ c, OAuth1.uriUnescaped c = true ∨ c = 37) e)).
  { intros H e. apply H. }
  induction s as [|d s IH]; intros e.
  - split.
    + intros _ [= <-]. constructor.
    + intros c [Hc _]%Forall_cons. simpl.
      destruct (OAuth1.uriUnescaped c) eqn:Hu.
      { intros [= <-]. apply Forall_cons. split; [by left|constructor]. }
      destruct (OAuth1.is_low_surrogate c); [done|].
      destruct (OAuth1.is_high_surrogate c); [done|].
      intros [= <-]. rewrite app_nil_r. apply Hpct. lia.
  - split; [apply IH|].
    intros c [Hc Hds]%Forall_cons.
    change (OAuth1.encodeURIComponent (c :: d :: s)) with
      (if OAuth1.uriUnescaped c then cons c <$> OAuth1.encodeURIComponent (d :: s)
       else if OAuth1.is_low_surrogate c then None
       else if OAuth1.is_high_surrogate c then
         if OAuth1.is_low_surrogate d then
           app (OAuth1.pctCodePoint ((c - 55296) * 1024 + (d - 56320) + 65536))
             <$> OAuth1.encodeURIComponent s
         else None
       else app (OAuth1.pctCodePoint c) <$> OAuth1.encodeURIComponent (d :: s)).
    destruct (OAuth1.uriUnescaped c) eqn:Hu.
    { destruct (OAuth1.encodeURIComponent (d :: s)) as [e'|] eqn:He'; [|done].
      intros [= <-]. apply Forall_cons. split; [by left|].
      destruct (IH e') as [_ IH2]. by apply (IH2 d). }
    destruct (OAuth1.is_low_surrogate c); [done|].
    destruct (OAuth1.is_high_surrogate c) eqn:Hhi.
    + destruct (OAuth1.is_low_surrogate d) eqn:Hlo; [|done].
      destruct (OAuth1.encodeURIComponent s) as [e'|] eqn:He'; [|done].
      intros [= <-]. apply Forall_app. split.
      * apply Hpct. unfold OAuth1.is_high_surrogate, OAuth1.is_low_surrogate in *.
        apply andb_prop in Hhi as [_ Hc2%N.leb_le]. apply andb_prop in Hlo as [_ Hd2%N.leb_le].
        lia.
      * apply Forall_cons in Hds as [_ Hs]. destruct (IH e') as [IH1 _]. by apply IH1.
    + destruct (OAuth1.encodeURIComponent (d :: s)) as [e'|] eqn:He'; [|done].
      intros [= <-]. apply Forall_app. split; [apply Hpct; lia|].
      destruct (IH e') as [_ IH2]. by apply (IH2 d).
Qed.

(** The output of [percentEncode] consists of unreserved characters and
    percent signs only. *)
Lemma percentEncode_chars (s e : jsstring) :
  Forall (λ c, c < 65536) s →
  OAuth1.percentEncode s = Some e →
  Forall encodedChar e.
Proof.
  intros Hs. unfold OAuth1.percentEncode.
  destruct (OAuth1.encodeURIComponent s) as [e'|] eqn:He'; [|done].
  intros [= <-].
  pose proof (encodeURIComponent_chars s e' Hs He') as Hall. clear He'.
  induction Hall as [|c l Hc _ IH]; [constructor|].
  rewrite fmap_cons.
  change (Forall encodedChar (OAuth1.replaceMark c ++ mjoin (OAuth1.replaceMark <$> l))).
  apply Forall_app. split; [by apply replaceMark_encoded|exact IH].
Qed.

(** In particular no [+], [&] or [=] is ever produced. *)
Lemma percentEncode_no_separator (s e : jsstring) (c : N) :
  Forall (λ c, c < 65536) s →
  OAuth1.percentEncode s = Some e →
  c ∈ [43; 38; 61] → c ∉ e.
Proof.
  intros Hs He Hc Hin.
  pose proof (percentEncode_chars s e Hs He) as Hall.
  rewrite Forall_forall in Hall. specialize (Hall c Hin).
  apply elem_of_cons in Hc as [-> | Hc]; [by destruct Hall|].
  apply elem_of_cons in Hc as [-> | Hc]; [by destruct Hall|].
  apply list_elem_of_singleton in Hc as ->. by destruct Hall.
Qed.

(** The parameter string joins, with ampersands, one [encKey=encVal] pair
    per key, in the order of the sorted keys. *)
Lemma paramString_pairs (params : Params) (ps : jsstring) :
  OAuth1.paramString params = Some ps →
  ∃ pairs,
    ps = join (js "&") pairs
    ∧ Forall2 (λ k pair, ∃ ek ev,
                 OAuth1.percentEncode k = Some ek
                 ∧ OAuth1.percentEncode (OAuth1.get params k) = Some ev
                 ∧ pair = ek ++ js "=" ++ ev)
        (merge_sort js_le (OAuth1.Object_keys params)) pairs.
Proof.
  unfold OAuth1.paramString. intros Hps.
  destruct (mapM _ _) as [pairs|] eqn:Hpairs; [|done].
  injection Hps as <-. exists pairs. split; [reflexivity|].
  apply mapM_Some in Hpairs. eapply Forall2_impl; [exact Hpairs|].
  intros k pair. unfold OAuth1.encodePair. simpl.
  destruct (OAuth1.percentEncode k) as [ek|]; [|done]. simpl.
  destruct (OAuth1.percentEncode (OAuth1.get params k)) as [ev|]; [|done]. simpl.
  intros [= <-]. by exists ek, ev.
Qed.

(** When the keys hold unreserved characters only, encoding leaves them
    as they are, so that their order is the order of the encoded keys. *)
Lemma sortedKeys_unreserved (params : Params) :
  Forall (λ k, forallb OAuth1.unreserved k = true) (OAuth1.Object_keys params) →
  mapM OAuth1.percentEncode (merge_sort js_le (OAuth1.Object_keys params))
  = Some (merge_sort js_le (OAuth1.Object_keys params)).
Proof.
  intros Hkeys. apply mapM_Some.
  rewrite <- (sortedKeys_Permutation params) in Hkeys.
  induction Hkeys as [|k l Hk _ IH]; constructor; [|exact IH].
  by apply percentEncode_unreserved.
Qed.

(** A base string is the upper-cased method, the encoded URL and the
    encoded parameter string, joined by ampersands. *)
Lemma buildBaseString_segments `{!Platform} (method url base : jsstring) (params : Params) :
  OAuth1.buildBaseString method url params = Some base →
  ∃ ps eurl eps,
    OAuth1.paramString params = Some ps ∧
    OAuth1.percentEncode url = Some eurl ∧
    OAuth1.percentEncode ps = Some eps ∧
    base = toUpperCase method ++ js "&" ++ eurl ++ js "&" ++ eps.
Proof.
  unfold OAuth1.buildBaseString. intros Hb.
  destruct (OAuth1.paramString params) as [ps|] eqn:Hps; [|done]. simpl in Hb.
  destruct (OAuth1.percentEncode url) as [eurl|] eqn:Hurl; [|done]. simpl in Hb.
  destruct (OAuth1.percentEncode ps) as [eps|] eqn:Heps; [|done]. simpl in Hb.
  exists ps, eurl, eps. injection Hb as <-. repeat split; done.
Qed.

(** C1 (code defect): on the parameter map [{ "a-": "1", "a/": "2" }] the
    signer emits the pair of key [a-] before the pair of key [a/], the
    order of the keys as they are, although the encoded key [a%2F] sorts
    before the encoded key [a-]: the parameter string is not in
    encoded-key order.  The base string is the upper-cased method, the
    encoded URL and the encoded parameter string joined by [&]. *)
Theorem C1_base_string_orders_raw_keys `{!Platform} :
  OAuth1.paramString slashParams = Some (js "a-=1&a%2F=2")
  ∧ OAuth1.buildBaseString (js "get") (js "https://h/p") slashParams
    = Some (toUpperCase (js "get") ++ js "&" ++ js "https%3A%2F%2Fh%2Fp"
            ++ js "&" ++ js "a-%3D1%26a%252F%3D2")
  ∧ OAuth1.percentEncode (js "a-") = Some (js "a-")
  ∧ OAuth1.percentEncode (js "a/") = Some (js "a%2F")
  ∧ js_ltb (js "a%2F") (js "a-") = true.
Proof. repeat split; vm_compute; reflexivity. Qed.

(** ** The OAuth 2.0 token cache *)

Import FatSecretMcpServer.

(** C2, as stated, fails: with a 60 s margin, a token whose stored deadline
    is 100 s is served from the cache at 50 s, although 50 s is not before
    the deadline minus the margin; no grant is sent. *)
Lemma C2_margin_counterexample :
  (now marginWorld <? oauth2TokenExpiry (server marginWorld) - 60 * 1000)%Z = false
  ∧ exec getOAuth2Token marginWorld []
    = {| result := Some (Returned (js "T")); final := marginWorld; sent := [] |}.
Proof. split; reflexivity. Qed.

(** C2 (amended): with credentials configured, a cached token is returned
    without any request while the clock is before the stored deadline;
    otherwise one client-credentials grant is sent, and its answer, when it
    is a success, is cached with the deadline [now + (expires_in - 60) * 1000]
    (the margin of 60 s is taken off once, when the token is stored) and
    returned; when it is not a success, the call fails with the status and
    the body of the answer and leaves the cache as it is. *)
Theorem C2_token_cache (w : World) :
  hasApiCredentials (server w) = true →
  (cached (now w) (server w) = true →
     getOAuth2Token w = Done (Returned (or_empty (oauth2Token (server w)))) w)
  ∧ (cached (now w) (server w) = false →
     ∃ k, getOAuth2Token w = Await (grantRequest (server w)) w k
       ∧ ∀ (r : Response) (w' : World),
           (ok r = true → ∀ data, json r = Some data →
              k (Resolved r) w'
              = Done (Returned (access_token data))
                  (set_server
                     (set_oauth2 (Some (access_token data))
                        (now w' + (expires_in data - 60) * 1000)%Z (server w')) w'))
           ∧ (ok r = false →
              k (Resolved r) w'
              = Done (Thrown (OAuth2TokenRequestFailed (status r) (body r))) w')).
Proof.
  intros Hcred. unfold cached.
  unfold getOAuth2Token, bind, ensureApiCredentials. rewrite Hcred. simpl.
  split; intros Hc; rewrite Hc.
  - reflexivity.
  - eexists. split; [reflexivity|].
    intros r w'. split.
    + intros Hok data Hdata. simpl. rewrite Hok, Hdata. reflexivity.
    + intros Hok. simpl. rewrite Hok. reflexivity.
Qed.

(** A miss followed by a successful answer, run to its end. *)
Example getOAuth2Token_sample_run :
  let r := exec getOAuth2Token sampleWorld [(1700000000500, Resolved (grantAnswer 0))]%Z in
  result r = Some (Returned (js "T0"))
  ∧ sent r = [grantRequest sampleServer]
  ∧ oauth2Token (server (final r)) = Some (js "T0")
  ∧ oauth2TokenExpiry (server (final r)) = (1700000000500 + (3600 - 60) * 1000)%Z.
Proof. repeat split; reflexivity. Qed.

Lemma C2_token_cache_witness :
  ∃ k, getOAuth2Token sampleWorld = Await (grantRequest sampleServer) sampleWorld k.
Proof.
  destruct (C2_token_cache sampleWorld eq_refl) as [_ Hmiss].
  destruct (Hmiss eq_refl) as [k [Hk _]].
  exists k. exact Hk.
Defined.

(** ** Concurrent callers of the token cache *)

(** On a miss, [getOAuth2Token] sends the grant and waits with one and the
    same continuation, which stores and returns the token of the answer it
    is given. *)
Lemma getOAuth2Token_miss :
  ∃ k : FetchResult → World → Step jsstring,
    (∀ w, hasApiCredentials (server w) = true → cached (now w) (server w) = false →
          getOAuth2Token w = Await (grantRequest (server w)) w k)
    ∧ (∀ r data w', ok r = true → json r = Some data →
          k (Resolved r) w'
          = Done (Returned (access_token data))
              (set_server
                 (set_oauth2 (Some (access_token data))
                    (now w' + (expires_in data - 60) * 1000)%Z (server w')) w')).
Proof.
  eexists. split.
  - intros w Hcred Hmiss. unfold cached in Hmiss.
    unfold getOAuth2Token, bind, ensureApiCredentials. rewrite Hcred. simpl.
    rewrite Hmiss. reflexivity.
  - intros r data w' Hok Hdata. simpl. rewrite Hok, Hdata. reflexivity.
Qed.

Section Concurrent.
Variable k : FetchResult → World → Step jsstring.
Hypothesis k_send :
  ∀ w, hasApiCredentials (server w) = true → cached (now w) (server w) = false →
       getOAuth2Token w = Await (grantRequest (server w)) w k.
Hypothesis k_store :
  ∀ r data w', ok r = true → json r = Some data →
    ∃ wf, k (Resolved r) w' = Done (Returned (access_token data)) wf.

(** Calls started while the cache misses all send a grant and wait. *)
Lemma spawn_all_miss (w : World) (ts : nat → Z) (n : nat) :
  hasApiCredentials (server w) = true →
  (∀ i, cached (ts i) (server w) = false) →
  server (shared (spawn_all getOAuth2Token ts n (idle w))) = server w
  ∧ callers (spawn_all getOAuth2Token ts n (idle w)) = replicate n (Waiting k)
  ∧ wire (spawn_all getOAuth2Token ts n (idle w)) = replicate n (grantRequest (server w)).
Proof.
  intros Hcred Hmiss. induction n as [|n (IHs & IHc & IHw)]; [done|].
  simpl. unfold spawn.
  rewrite k_send; simpl; rewrite ?IHs; [|done|apply Hmiss].
  rewrite IHc, IHw. split; [done|].
  split; rewrite <- replicate_cons_app; reflexivity.
Qed.

(** Answers delivered to waiting callers, in any order: each caller
    finishes with the token of its own answer, nothing more is sent. *)
Lemma deliver_all_own_token (answers : nat → Response) (data : nat → TokenJson)
    (td : nat → Z) (order : list nat) (st : Sched jsstring) :
  (∀ i, ok (answers i) = true ∧ json (answers i) = Some (data i)) →
  NoDup order →
  (∀ i, i ∈ order → callers st !! i = Some (Waiting k)) →
  let st' := deliver_all (λ i, Resolved (answers i)) td order st in
  wire st' = wire st
  ∧ (∀ i, i ∈ order →
       callers st' !! i = Some (Finished (Returned (access_token (data i)))))
  ∧ (∀ i, i ∉ order → callers st' !! i = callers st !! i).
Proof.
  intros Hans. revert st.
  induction order as [|i rest IH]; intros st Hnodup Hwait.
  - simpl. split; [done|]. split; [|done]. by intros i ?%elem_of_nil.
  - apply NoDup_cons in Hnodup as [Hi Hrest].
    assert (Hwi : callers st !! i = Some (Waiting k)) by (apply Hwait; left).
    destruct (Hans i) as [Hok Hdata].
    destruct (k_store (answers i) (data i) (set_now (td i) (shared st)) Hok Hdata)
      as [wf Hk].
    assert (Hstep : deliver i (Resolved (answers i)) (td i) st
                    = {| shared := wf;
                         callers := <[i := Finished (Returned (access_token (data i)))]>
                                      (callers st);
                         wire := wire st |}).
    { unfold deliver. rewrite Hwi, Hk. simpl. by rewrite app_nil_r. }
    unfold deliver_all in *. simpl. rewrite Hstep.
    set (st1 := {| shared := wf;
                   callers := <[i := Finished (Returned (access_token (data i)))]>
                                (callers st);
                   wire := wire st |}).
    destruct (IH st1 Hrest) as (IHw & IHin & IHout).
    { intros j Hj. simpl. rewrite list_lookup_insert_ne by (intros ->; done).
      apply Hwait. by right. }
    simpl in *. split; [exact IHw|]. split.
    + intros j [-> | Hj]%elem_of_cons; [|by apply IHin].
      rewrite (IHout _ Hi). apply list_lookup_insert_eq.
      by apply lookup_lt_Some in Hwi.
    + intros j [Hji Hj]%not_elem_of_cons. rewrite (IHout _ Hj).
      by apply list_lookup_insert_ne.
Qed.
End Concurrent.

(** C3, as stated, fails: two calls started on an empty cache send two
    grants, and when the token endpoint answers them with different tokens
    the two callers get different tokens. *)
Lemma C3_two_callers_counterexample :
  let started := spawn_all getOAuth2Token (λ _, now sampleWorld) 2 (idle sampleWorld) in
  let finished :=
    deliver_all (λ i, Resolved (grantAnswer i)) (λ _, now sampleWorld) [0; 1]%nat started in
  wire started = [grantRequest sampleServer; grantRequest sampleServer]
  ∧ length (wire started) ≠ 1%nat
  ∧ callers finished = [Finished (Returned (js "T0")); Finished (Returned (js "T1"))].
Proof. split; [reflexivity|]. split; [discriminate|reflexivity]. Qed.

(** C3 (amended): the cache has no single-flight guard.  When [n] calls
    are started while credentials are configured and the cache misses, and
    no answer has arrived yet, every call sends its own client-credentials
    grant, [n] in all; when the answers arrive, successful and in any
    order, each caller gets the token of the answer to its own grant, and
    nothing more is sent. *)
Theorem C3_every_concurrent_caller_sends_a_grant (w : World) (n : nat)
    (ts td : nat → Z) (answers : nat → Response) (data : nat → TokenJson)
    (order : list nat) :
  hasApiCredentials (server w) = true →
  (∀ i, cached (ts i) (server w) = false) →
  (∀ i, ok (answers i) = true ∧ json (answers i) = Some (data i)) →
  order ≡ₚ seq 0 n →
  let started := spawn_all getOAuth2Token ts n (idle w) in
  let finished := deliver_all (λ i, Resolved (answers i)) td order started in
  wire started = replicate n (grantRequest (server w))
  ∧ wire finished = wire started
  ∧ ∀ i, (i < n)%nat →
         callers finished !! i = Some (Finished (Returned (access_token (data i)))).
Proof.
  intros Hcred Hmiss Hans Hperm started finished.
  destruct getOAuth2Token_miss as (k & Hsend & Hstore).
  destruct (spawn_all_miss k Hsend w ts n Hcred Hmiss) as (_ & Hcallers & Hwire).
  fold started in Hcallers, Hwire.
  assert (Hstore' : ∀ r data w', ok r = true → json r = Some data →
            ∃ wf, k (Resolved r) w' = Done (Returned (access_token data)) wf).
  { intros r d w' Hok Hd. eexists. by apply Hstore. }
  destruct (deliver_all_own_token k Hstore' answers data td order started Hans)
    as (Hsame & Hown & _).
  - rewrite Hperm. apply NoDup_seq.
  - intros i Hi. rewrite Hperm in Hi. apply elem_of_seq in Hi.
    rewrite Hcallers. apply lookup_replicate_2. lia.
  - split; [exact Hwire|]. split; [exact Hsame|].
    intros i Hi. apply Hown. rewrite Hperm. apply elem_of_seq. lia.
Qed.

Lemma C3_every_concurrent_caller_sends_a_grant_witness :
  let started := spawn_all getOAuth2Token (λ _, now sampleWorld) 3 (idle sampleWorld) in
  length (wire started) = 3%nat.
Proof.
  intros started.
  destruct (C3_every_concurrent_caller_sends_a_grant sampleWorld 3
              (λ _, now sampleWorld) (λ _, now sampleWorld)
              grantAnswer
              (λ i, {| access_token := js "T" ++ js (pretty i); expires_in := 3600 |})
              [2; 0; 1]%nat)
    as (Hwire & _).
  - reflexivity.
  - intros i. reflexivity.
  - intros i. split; reflexivity.
  - apply (Permutation_cons_append [0; 1]%nat 2%nat).
  - fold started in Hwire. rewrite Hwire. reflexivity.
Defined.

(** ** Profile calls *)

(** C4, as stated, fails: on a server without API credentials and without
    user token, a profile call fails before any request, but with the
    error of missing API credentials, not with the unauthorized error. *)
Lemma C4_unconfigured_counterexample :
  exec (@profileClient samplePlatform (js "GET") (js "/profile/v1") ∅) blankWorld []
  = {| result := Some (Thrown ApiCredentialsNotConfigured); final := blankWorld; sent := [] |}
  ∧ result (exec (@profileClient samplePlatform (js "GET") (js "/profile/v1") ∅) blankWorld [])
    ≠ Some (Thrown NotAuthenticatedForProfile).
Proof. split; [reflexivity|discriminate]. Qed.

(** C4 (amended): a profile call made while the access token or its
    secret is absent fails before any request is sent and leaves the state
    as it is: with the unauthorized error when the API credentials are
    configured, with the error of missing API credentials when they are
    not. *)
Theorem C4_profile_call_without_user_token `{!Platform}
    (w : World) (method path : jsstring) (query : Params) (net : list (Z * FetchResult)) :
  otruthy (accessToken (oauth1Credentials (server w))) = false
  ∨ otruthy (accessTokenSecret (oauth1Credentials (server w))) = false →
  exec (profileClient method path query) w net
  = {| result := Some (Thrown (if hasApiCredentials (server w)
                               then NotAuthenticatedForProfile
                               else ApiCredentialsNotConfigured));
       final := w; sent := [] |}.
Proof.
  intros Habsent.
  unfold exec, profileClient, oauth1Middleware, ensureProfileAuth, bind,
    ensureApiCredentials.
  destruct (hasApiCredentials (server w)); simpl; [|reflexivity].
  destruct Habsent as [-> | ->]; simpl; rewrite ?orb_true_r; reflexivity.
Qed.

(** With a user token the call goes out, signed with that token. *)
Example profileClient_sample_run :
  let r := exec (@profileClient samplePlatform (js "GET") (js "/food-entries/v2")
                   {[ js "format" := js "json" ]}) authorizedWorld [] in
  result r = None
  ∧ (λ req, (req_url req, req_params req !! js "oauth_token",
             req_params req !! js "format")) <$> sent r
    = [(js "https://platform.fatsecret.com/rest/food-entries/v2",
        Some (js "tok"), Some (js "json"))].
Proof. vm_compute. split; reflexivity. Qed.

Lemma C4_profile_call_without_user_token_witness :
  exec (@profileClient samplePlatform (js "GET") (js "/food-entries/v2") ∅) sampleWorld []
  = {| result := Some (Thrown NotAuthenticatedForProfile); final := sampleWorld; sent := [] |}.
Proof.
  apply (@C4_profile_call_without_user_token samplePlatform sampleWorld).
  left. reflexivity.
Defined.

(** ** The two token legs *)

Section Legs.
Context `{!Platform}.

(** [buildOAuth1Params] draws one nonce and either fails on a string that
    cannot be encoded or returns the caller's parameters laid over the
    OAuth parameters and the signature. *)
Lemma buildOAuth1Params_Done (method url : jsstring) (credentials : OAuth1Credentials)
    (extraParams : Params) (w : World) :
  let w1 := (OAuth1.generateNonce w).2 in
  let oauthParams :=
    OAuth1.oauthParams0 credentials (random w (drawn w)) (OAuth1.generateTimestamp w) in
  OAuth1.buildOAuth1Params method url credentials extraParams w = Done (Thrown URIError) w1
  ∨ ∃ base key,
      OAuth1.buildBaseString method url (extraParams ∪ oauthParams) = Some base
      ∧ OAuth1.signingKey (consumerSecret credentials)
          (or_empty (accessTokenSecret credentials)) = Some key
      ∧ OAuth1.buildOAuth1Params method url credentials extraParams w
        = Done (Returned (extraParams
                          ∪ <[js "oauth_signature" := hmac_sha1_base64 key base]> oauthParams)) w1.
Proof.
  unfold OAuth1.buildOAuth1Params, OAuth1.sign. cbn [OAuth1.generateNonce snd].
  change (OAuth1.generateTimestamp _) with (OAuth1.generateTimestamp w).
  destruct (OAuth1.buildBaseString _ _ _) as [base|]; [|by left].
  destruct (OAuth1.signingKey _ _) as [key|]; [|by left].
  right. exists base, key. done.
Qed.

(** [oauth_token] is among the OAuth parameters exactly when the
    credentials hold a non-empty access token. *)
Lemma oauthParams0_token_lookup (credentials : OAuth1Credentials) (nonce timestamp : jsstring) :
  OAuth1.oauthParams0 credentials nonce timestamp !! js "oauth_token"
  = if otruthy (accessToken credentials) then accessToken credentials else None.
Proof.
  unfold OAuth1.oauthParams0.
  destruct (accessToken credentials) as [token|]; simpl; [|by js_lookup].
  destruct (truthy token); by js_lookup.
Qed.

Lemma oauthParams0_token (credentials : OAuth1Credentials) (nonce timestamp token : jsstring) :
  accessToken credentials = Some token → truthy token = true →
  OAuth1.oauthParams0 credentials nonce timestamp !! js "oauth_token" = Some token.
Proof.
  intros Htok Htruthy. rewrite oauthParams0_token_lookup, Htok. simpl.
  by rewrite Htruthy.
Qed.

(** The access-token leg: either nothing is sent, or one request goes to
    the access-token endpoint with the given token, the verifier, and a
    signature keyed with the given token secret; the answer decides the
    outcome and the state is not touched. *)
Lemma accessToken_step (credentials : OAuth1Credentials)
    (token secret verifier : jsstring) (w : World) :
  let w1 := (OAuth1.generateNonce w).2 in
  OAuth1.accessToken credentials token secret verifier w = Done (Thrown URIError) w1
  ∨ ∃ params k,
      OAuth1.accessToken credentials token secret verifier w
      = Await {| req_method := js "GET"; req_url := OAuth1.ACCESS_TOKEN_URL;
                 req_params := params |} w1 k
      ∧ (truthy token = true → params !! js "oauth_token" = Some token)
      ∧ params !! js "oauth_verifier" = Some verifier
      ∧ (∃ key base,
           OAuth1.signingKey (consumerSecret credentials) secret = Some key
           ∧ params !! js "oauth_signature" = Some (hmac_sha1_base64 key base))
      ∧ (∀ r w' t s, grantedToken r = Some (t, s) →
           k r w' = Done (Returned {| OAuth1.accessTokenValue := t;
                                      OAuth1.accessTokenSecretValue := s |}) w')
      ∧ (∀ r w', grantedToken r = None → ∃ e, k r w' = Done (Thrown e) w').
Proof.
  intros w1. unfold OAuth1.accessToken, bind.
  match goal with
  | |- context [OAuth1.buildOAuth1Params ?m ?u ?c ?e w] =>
      destruct (buildOAuth1Params_Done m u c e w) as [-> | (base & key & _ & Hkey & ->)]
  end; [by left|].
  right. simpl. do 2 eexists. split; [reflexivity|].
  split.
  { intros Htruthy. rewrite lookup_union_r by by js_lookup.
    rewrite lookup_insert_ne by js_neq.
    by apply oauthParams0_token. }
  split.
  { apply lookup_union_Some_l. by js_lookup. }
  split.
  { exists key, base. split; [exact Hkey|].
    rewrite lookup_union_r by by js_lookup. by js_lookup. }
  split.
  - intros r w' t s Hr. destruct r as [|response]; [done|]. simpl in *.
    destruct (ok response); [|done]. simpl.
    destruct (form_get (js "oauth_token") (form response)) as [t'|]; [|done].
    destruct (form_get (js "oauth_token_secret") (form response)) as [s'|]; [|done].
    destruct (truthy t'), (truthy s'); simpl in *; try done.
    by simplify_eq.
  - intros r w' Hr. destruct r as [|response]; [by eexists|]. simpl in *.
    destruct (ok response); [|by eexists]. simpl.
    destruct (form_get (js "oauth_token") (form response)) as [t'|]; [|by eexists].
    destruct (form_get (js "oauth_token_secret") (form response)) as [s'|]; [|by eexists].
    destruct (truthy t'), (truthy s'); simpl in *; try done; by eexists.
Qed.

(** The request-token leg, in the same terms. *)
Lemma requestToken_step (credentials : OAuth1Credentials) (w : World) :
  let w1 := (OAuth1.generateNonce w).2 in
  OAuth1.requestToken credentials w = Done (Thrown URIError) w1
  ∨ ∃ params k,
      OAuth1.requestToken credentials w
      = Await {| req_method := js "GET"; req_url := OAuth1.REQUEST_TOKEN_URL;
                 req_params := params |} w1 k
      ∧ params !! js "oauth_callback" = Some (js "oob")
      ∧ params !! js "oauth_token"
        = (if otruthy (accessToken credentials) then accessToken credentials else None)
      ∧ (∃ key base,
           OAuth1.signingKey (consumerSecret credentials)
             (or_empty (accessTokenSecret credentials)) = Some key
           ∧ params !! js "oauth_signature" = Some (hmac_sha1_base64 key base))
      ∧ (∀ r w' t s, grantedToken r = Some (t, s) →
           k r w' = Done (Returned
                            {| OAuth1.oauthToken := t; OAuth1.oauthTokenSecret := s;
                               OAuth1.authorizationUrl :=
                                 OAuth1.AUTHORIZE_URL ++ js "?oauth_token=" ++ t |}) w')
      ∧ (∀ r w', grantedToken r = None → ∃ e, k r w' = Done (Thrown e) w').
Proof.
  intros w1. unfold OAuth1.requestToken, bind.
  match goal with
  | |- context [OAuth1.buildOAuth1Params ?m ?u ?c ?e w] =>
      destruct (buildOAuth1Params_Done m u c e w) as [-> | (base & key & _ & Hkey & ->)]
  end; [by left|].
  right. simpl. do 2 eexists. split; [reflexivity|].
  split.
  { apply lookup_union_Some_l. by js_lookup. }
  split.
  { rewrite lookup_union_r by by js_lookup.
    rewrite lookup_insert_ne by js_neq.
    apply oauthParams0_token_lookup. }
  split.
  { exists key, base. split; [exact Hkey|].
    rewrite lookup_union_r by by js_lookup. by js_lookup. }
  split.
  - intros r w' t s Hr. destruct r as [|response]; [done|]. simpl in *.
    destruct (ok response); [|done]. simpl.
    destruct (form_get (js "oauth_token") (form response)) as [t'|]; [|done].
    destruct (form_get (js "oauth_token_secret") (form response)) as [s'|]; [|done].
    destruct (truthy t'), (truthy s'); simpl in *; try done.
    by simplify_eq.
  - intros r w' Hr. destruct r as [|response]; [by eexists|]. simpl in *.
    destruct (ok response); [|by eexists]. simpl.
    destruct (form_get (js "oauth_token") (form response)) as [t'|]; [|by eexists].
    destruct (form_get (js "oauth_token_secret") (form response)) as [s'|]; [|by eexists].
    destruct (truthy t'), (truthy s'); simpl in *; try done; by eexists.
Qed.

(** What [start_auth] sends: with API credentials configured it is one
    request-token call carrying [oauth_callback=oob]; [oauth_token] is
    present exactly when the credentials hold a non-empty access token, and
    the signature is keyed with the consumer secret and the access token
    secret of the credentials (the empty string when there is none). *)
Lemma start_auth_request (w : World) :
  hasApiCredentials (server w) = true →
  let credentials := oauth1Credentials (server w) in
  (∃ w1, start_auth w = Done (Thrown URIError) w1)
  ∨ ∃ req w1 k,
      start_auth w = Await req w1 k
      ∧ req_url req = OAuth1.REQUEST_TOKEN_URL
      ∧ req_params req !! js "oauth_callback" = Some (js "oob")
      ∧ req_params req !! js "oauth_token"
        = (if otruthy (accessToken credentials) then accessToken credentials else None)
      ∧ (∃ key base,
           OAuth1.signingKey (consumerSecret credentials)
             (or_empty (accessTokenSecret credentials)) = Some key
           ∧ req_params req !! js "oauth_signature" = Some (hmac_sha1_base64 key base)).
Proof.
  intros Hcred credentials.
  unfold start_auth, bind, ensureApiCredentials. rewrite Hcred. simpl.
  destruct (requestToken_step (oauth1Credentials (server w)) w)
    as [-> | (params & k & -> & Hcb & Htok & Hsig & _)].
  - left. by eexists.
  - right. simpl. do 3 eexists. split; [reflexivity|]. done.
Qed.

(** A successful token answer carries a non-empty token. *)
Lemma grantedToken_truthy (r : FetchResult) (t s : jsstring) :
  grantedToken r = Some (t, s) → truthy t = true ∧ truthy s = true.
Proof.
  destruct r as [|response]; [done|]. simpl.
  destruct (ok response); [|done].
  destruct (form_get (js "oauth_token") (form response)) as [t'|]; [|done].
  destruct (form_get (js "oauth_token_secret") (form response)) as [s'|]; [|done].
  destruct (truthy t') eqn:Ht, (truthy s') eqn:Hs; simpl; try done.
  intros [= <- <-]. done.
Qed.

(** [complete_auth] with a pending token, step by step. *)
Lemma complete_auth_step (w : World) (verifier token secret : jsstring) :
  pendingOAuth (server w) = Some (token, secret) →
  (∃ w1, complete_auth verifier w = Done (Thrown URIError) w1
         ∧ server w1 = server w ∧ disk w1 = disk w)
  ∨ (∃ req w1 K,
       complete_auth verifier w = Await req w1 K
       ∧ req_url req = OAuth1.ACCESS_TOKEN_URL
       ∧ (truthy token = true → req_params req !! js "oauth_token" = Some token)
       ∧ req_params req !! js "oauth_verifier" = Some verifier
       ∧ (∃ key base,
            OAuth1.signingKey (consumerSecret (oauth1Credentials (server w))) secret
            = Some key
            ∧ req_params req !! js "oauth_signature" = Some (hmac_sha1_base64 key base))
       ∧ server w1 = server w ∧ disk w1 = disk w
       ∧ ∀ r w',
           (grantedToken r = None → ∃ e, K r w' = Done (Thrown e) w')
           ∧ (∀ t s, grantedToken r = Some (t, s) →
                ∃ wf, K r w' = Done (Returned tt) wf
                  ∧ pendingOAuth (server wf) = None
                  ∧ accessToken (oauth1Credentials (server wf)) = Some t
                  ∧ accessTokenSecret (oauth1Credentials (server wf)) = Some s
                  ∧ disk wf
                    = Some (<[js "accessToken" := t]>
                              (<[js "accessTokenSecret" := s]> ∅)
                            ∪ default ∅ (disk w')))).
Proof.
  intros Hpending. unfold complete_auth. rewrite Hpending.
  unfold bind.
  destruct (accessToken_step (oauth1Credentials (server w)) token secret verifier w)
    as [-> | (params & k & -> & Htok & Hver & Hsig & Hok & Hfail)].
  - left. eexists. split; [reflexivity|]. split; reflexivity.
  - right. simpl. do 3 eexists. split; [reflexivity|].
    split; [reflexivity|]. split; [exact Htok|]. split; [exact Hver|].
    split; [exact Hsig|]. split; [reflexivity|]. split; [reflexivity|].
    intros r w'. split.
    + intros Hr. destruct (Hfail r w' Hr) as [e ->]. by exists e.
    + intros t s Hr. rewrite (Hok r w' t s Hr). simpl.
      eexists. split; [reflexivity|]. simpl. done.
Qed.

(** Every request that [complete_auth] sends names the pending token. *)
Lemma complete_auth_requests (w : World) (verifier token secret : jsstring)
    (net : list (Z * FetchResult)) (req : Request) :
  pendingOAuth (server w) = Some (token, secret) →
  req ∈ sent (exec (complete_auth verifier) w net) →
  req_url req = OAuth1.ACCESS_TOKEN_URL
  ∧ (truthy token = true → req_params req !! js "oauth_token" = Some token)
  ∧ req_params req !! js "oauth_verifier" = Some verifier
  ∧ (∃ key base,
       OAuth1.signingKey (consumerSecret (oauth1Credentials (server w))) secret = Some key
       ∧ req_params req !! js "oauth_signature" = Some (hmac_sha1_base64 key base)).
Proof.
  intros Hpending. unfold exec.
  destruct (complete_auth_step w verifier token secret Hpending)
    as [(w1 & -> & _) | (req' & w1 & K & -> & Hurl & Htok & Hver & Hsig & _ & _ & HK)].
  - simpl. by intros ?%elem_of_nil.
  - assert (Hone : sent (run (Await req' w1 K) net) = [req']).
    { destruct net as [|[t r] net]; [reflexivity|]. simpl.
      destruct (HK r (set_now t w1)) as [Hfail Hok].
      destruct (grantedToken r) as [[t' s']|] eqn:Hr.
      - destruct (Hok t' s' eq_refl) as (wf & -> & _). reflexivity.
      - destruct (Hfail eq_refl) as [e ->]. reflexivity. }
    rewrite Hone. intros ->%list_elem_of_singleton. done.
Qed.
End Legs.

(** ** Starting an authorization *)

(** On a configured server without user token the request-token call is
    signed with the consumer secret alone and carries no [oauth_token]. *)
Example start_auth_configured_consumer_only :
  let r := exec (@start_auth samplePlatform) sampleWorld [] in
  (λ req, (req_params req !! js "oauth_callback", req_params req !! js "oauth_token",
           take 4 <$> req_params req !! js "oauth_signature")) <$> sent r
  = [(Some (js "oob"), None, Some (js "cs&#"))].
Proof. vm_compute. reflexivity. Qed.

(** C5 (code defect): started on a server that already holds the user
    token [tok] with secret [sec], [start_auth] sends a request-token call
    that carries [oauth_callback=oob] but also [oauth_token=tok], and whose
    signature is keyed with [cs&sec], the consumer secret followed by the
    secret of the user token, not by an empty token secret. *)
Theorem C5_start_auth_authorized_signs_with_user_token `{!Platform} :
  ∃ req w' k base,
    start_auth authorizedWorld = Await req w' k
    ∧ req_url req = OAuth1.REQUEST_TOKEN_URL
    ∧ req_params req !! js "oauth_callback" = Some (js "oob")
    ∧ req_params req !! js "oauth_token" = Some (js "tok")
    ∧ OAuth1.signingKey (js "cs") (js "sec") = Some (js "cs&sec")
    ∧ req_params req !! js "oauth_signature"
      = Some (hmac_sha1_base64 (js "cs&sec") base).
Proof.
  set (s := start_auth authorizedWorld). vm_compute in s.
  subst s. do 4 eexists.
  split; [reflexivity|].
  repeat split; vm_compute; reflexivity.
Qed.

(** ** Completing an authorization *)

(** C6: without a pending request token [complete_auth] fails with the
    "no pending flow" error and sends nothing.  With one, it sends at most
    one request; when the answer is not a success the call fails and the
    state is left as it is, pending token included; when it is a success
    the user token and its secret are written to the persisted record and
    to the credentials, and the pending token is cleared. *)
Theorem C6_complete_auth `{!Platform} (w : World) (verifier : jsstring) :
  (pendingOAuth (server w) = None →
     ∀ net, exec (complete_auth verifier) w net
            = {| result := Some (Thrown NoPendingOAuthFlow); final := w; sent := [] |})
  ∧ (∀ token secret, pendingOAuth (server w) = Some (token, secret) →
       (∃ w1, complete_auth verifier w = Done (Thrown URIError) w1
              ∧ server w1 = server w ∧ disk w1 = disk w)
       ∨ (∃ req w1 K,
            complete_auth verifier w = Await req w1 K
            ∧ req_url req = OAuth1.ACCESS_TOKEN_URL
            ∧ server w1 = server w ∧ disk w1 = disk w
            ∧ ∀ r w',
                (grantedToken r = None → ∃ e, K r w' = Done (Thrown e) w')
                ∧ (∀ t s, grantedToken r = Some (t, s) →
                     ∃ wf, K r w' = Done (Returned tt) wf
                       ∧ pendingOAuth (server wf) = None
                       ∧ accessToken (oauth1Credentials (server wf)) = Some t
                       ∧ accessTokenSecret (oauth1Credentials (server wf)) = Some s
                       ∧ disk wf
                         = Some (<[js "accessToken" := t]>
                                   (<[js "accessTokenSecret" := s]> ∅)
                                 ∪ default ∅ (disk w'))))).
Proof.
  split.
  - intros Hnone net. unfold exec, complete_auth. rewrite Hnone. reflexivity.
  - intros token secret Hpending.
    destruct (complete_auth_step w verifier token secret Hpending)
      as [Hthrown | (req & w1 & K & Hstep & Hurl & _ & _ & _ & Hserver & Hdisk & HK)].
    + by left.
    + right. exists req, w1, K. done.
Qed.

(** A run of [complete_auth] on a server with pending token [rt]: the
    request names [rt], and a successful answer stores the user token. *)
Example complete_auth_sample_run :
  let w :=
    set_server (set_pendingOAuth (Some (js "rt", js "rs")) sampleServer) sampleWorld in
  let answer :=
    Resolved {| status := 200; body := js "oauth_token=at&oauth_token_secret=as";
                form := [(js "oauth_token", js "at"); (js "oauth_token_secret", js "as")];
                json := None |} in
  let r := exec (@complete_auth samplePlatform (js "1234")) w [(now w, answer)] in
  result r = Some (Returned tt)
  ∧ (λ req, req_params req !! js "oauth_token") <$> sent r = [Some (js "rt")]
  ∧ pendingOAuth (server (final r)) = None
  ∧ accessToken (oauth1Credentials (server (final r))) = Some (js "at")
  ∧ default ∅ (disk (final r)) !! js "accessToken" = Some (js "at").
Proof. vm_compute. repeat split; reflexivity. Qed.

(** ** Two starts before one completion *)




(** ** The credential store *)

(** C8: [saveConfig] reads the persisted record, lays the update over it
    and writes the result back: every field of the update has its new
    value, every field absent from the update keeps the value it had; in
    particular, saving [{accessToken: X}] over a record that holds
    [clientId: Y] gives a record with both. *)
Theorem C8_saveConfig_merges (w : World) (existing updates : Params) :
  disk w = Some existing →
  ∃ merged : Params,
    saveConfig updates w = Done (Returned tt) (set_disk (Some merged) w)
    ∧ (∀ k v, updates !! k = Some v → merged !! k = Some v)
    ∧ (∀ k, updates !! k = None → merged !! k = existing !! k)
    ∧ (∀ X Y, updates = {[ js "accessToken" := X ]} →
              existing !! js "clientId" = Some Y →
              merged !! js "accessToken" = Some X ∧ merged !! js "clientId" = Some Y).
Proof.
  intros Hdisk. exists (updates ∪ existing).
  split; [unfold saveConfig; by rewrite Hdisk|].
  split; [intros k v Hk; by apply lookup_union_Some_l|].
  split; [intros k Hk; by apply lookup_union_r|].
  intros X Y -> HY. split.
  - apply lookup_union_Some_l. apply lookup_singleton_eq.
  - rewrite lookup_union_r; [done|]. by apply lookup_singleton_ne.
Qed.

Lemma C8_saveConfig_merges_witness :
  ∃ merged : Params,
    saveConfig {[ js "accessToken" := js "X" ]}
      (set_disk (Some {[ js "clientId" := js "Y" ]}) sampleWorld)
    = Done (Returned tt) (set_disk (Some merged) sampleWorld)
    ∧ merged !! js "accessToken" = Some (js "X")
    ∧ merged !! js "clientId" = Some (js "Y").
Proof.
  destruct (C8_saveConfig_merges
              (set_disk (Some {[ js "clientId" := js "Y" ]}) sampleWorld)
              {[ js "clientId" := js "Y" ]} {[ js "accessToken" := js "X" ]} eq_refl)
    as (merged & Hsave & _ & _ & Hboth).
  exists merged. split; [exact Hsave|].
  apply (Hboth (js "X") (js "Y") eq_refl). reflexivity.
Defined.

(** ** The session registry *)

Import HttpServer.



(** ** Configuring credentials *)



(** ** Percent-encoding *)

(** Induction on a string that may step over one code unit or over two. *)
Lemma jsstring_pair_ind (P : jsstring → Prop) :
  P [] →
  (∀ c rest, P rest → (∀ d rest', rest = d :: rest' → P rest') → P (c :: rest)) →
  ∀ s, P s.
Proof.
  intros Hnil Hcons s.
  cut (P s ∧ ∀ d rest', s = d :: rest' → P rest'); [by intros [? _]|].
  induction s as [|c s [IH1 IH2]].
  - split; [exact Hnil|]. intros d rest' [=].
  - split; [by apply Hcons|]. by intros d rest' [= _ <-].
Qed.

Lemma replaceMark_hexDigit (d : N) : OAuth1.replaceMark (OAuth1.hexDigit d) = [OAuth1.hexDigit d].
Proof.
  unfold OAuth1.replaceMark, OAuth1.hexDigit.
  destruct (N.ltb_spec d 10); simpl;
    repeat match goal with
           | |- context [?x =? ?n] => destruct (N.eqb_spec x n); [lia|]
           end; reflexivity.
Qed.

Lemma replaceMark_pctCodePoint (cp : N) :
  mjoin (OAuth1.replaceMark <$> OAuth1.pctCodePoint cp) = OAuth1.pctCodePoint cp.
Proof.
  unfold OAuth1.pctCodePoint. induction (OAuth1.utf8 cp) as [|o l IH]; [reflexivity|].
  rewrite fmap_cons.
  change (mjoin (OAuth1.pctOctet o :: (OAuth1.pctOctet <$> l)))
    with (OAuth1.pctOctet o ++ mjoin (OAuth1.pctOctet <$> l)).
  rewrite fmap_app, join_app, IH. f_equal.
  unfold OAuth1.pctOctet. rewrite !fmap_cons.
  change (mjoin (?a :: ?b :: ?c :: [])) with (a ++ b ++ c ++ []).
  rewrite !replaceMark_hexDigit. reflexivity.
Qed.

(** How [percentEncode] proceeds on a non-empty string. *)
Lemma percentEncode_cons_unescaped (c : N) (rest : jsstring) :
  OAuth1.uriUnescaped c = true →
  OAuth1.percentEncode (c :: rest) = app (OAuth1.replaceMark c) <$> OAuth1.percentEncode rest.
Proof.
  intros Hc. unfold OAuth1.percentEncode. simpl. rewrite Hc.
  destruct (OAuth1.encodeURIComponent rest); reflexivity.
Qed.

Lemma percentEncode_cons_escaped (c : N) (rest : jsstring) :
  OAuth1.uriUnescaped c = false → OAuth1.is_low_surrogate c = false →
  OAuth1.is_high_surrogate c = false →
  OAuth1.percentEncode (c :: rest) = app (OAuth1.pctCodePoint c) <$> OAuth1.percentEncode rest.
Proof.
  intros Hc Hlo Hhi. unfold OAuth1.percentEncode. simpl. rewrite Hc, Hlo, Hhi.
  destruct (OAuth1.encodeURIComponent rest) as [e|]; [|reflexivity]. simpl.
  by rewrite fmap_app, join_app, replaceMark_pctCodePoint.
Qed.

Lemma percentEncode_cons_pair (c d : N) (rest : jsstring) :
  OAuth1.uriUnescaped c = false → OAuth1.is_low_surrogate c = false →
  OAuth1.is_high_surrogate c = true → OAuth1.is_low_surrogate d = true →
  OAuth1.percentEncode (c :: d :: rest)
  = app (OAuth1.pctCodePoint ((c - 55296) * 1024 + (d - 56320) + 65536))
      <$> OAuth1.percentEncode rest.
Proof.
  intros Hc Hlo Hhi Hd. unfold OAuth1.percentEncode.
  change (OAuth1.encodeURIComponent (c :: d :: rest)) with
    (if OAuth1.uriUnescaped c then cons c <$> OAuth1.encodeURIComponent (d :: rest)
     else if OAuth1.is_low_surrogate c then None
     else if OAuth1.is_high_surrogate c then
       if OAuth1.is_low_surrogate d then
         app (OAuth1.pctCodePoint ((c - 55296) * 1024 + (d - 56320) + 65536))
           <$> OAuth1.encodeURIComponent rest
       else None
     else app (OAuth1.pctCodePoint c) <$> OAuth1.encodeURIComponent (d :: rest)).
  rewrite Hc, Hlo, Hhi, Hd.
  destruct (OAuth1.encodeURIComponent rest) as [e|]; [|reflexivity]. simpl.
  by rewrite fmap_app, join_app, replaceMark_pctCodePoint.
Qed.

Lemma percentEncode_cons_lone (c : N) (rest : jsstring) :
  OAuth1.uriUnescaped c = false →
  OAuth1.is_low_surrogate c = true
  ∨ (OAuth1.is_high_surrogate c = true
     ∧ match rest with d :: _ => OAuth1.is_low_surrogate d = false | [] => True end) →
  OAuth1.percentEncode (c :: rest) = None.
Proof.
  intros Hc Hlone. unfold OAuth1.percentEncode. simpl. rewrite Hc.
  destruct Hlone as [-> | [Hhi Hrest]]; [reflexivity|].
  destruct (OAuth1.is_low_surrogate c); [reflexivity|]. rewrite Hhi.
  destruct rest as [|d rest]; [reflexivity|]. by rewrite Hrest.
Qed.

Lemma surrogate_not_unescaped (c : N) :
  OAuth1.is_low_surrogate c = true ∨ OAuth1.is_high_surrogate c = true →
  OAuth1.uriUnescaped c = false.
Proof.
  unfold OAuth1.is_low_surrogate, OAuth1.is_high_surrogate, OAuth1.uriUnescaped,
    OAuth1.is_alpha, OAuth1.is_digit, OAuth1.is_uriMark.
  intros H.
  assert (Hc : 55296 ≤ c).
  { destruct H as [H|H]; apply andb_prop in H as [H%N.leb_le _]; lia. }
  simpl.
  repeat match goal with
         | |- context [?a <=? ?b] => destruct (N.leb_spec a b); try lia
         | |- context [c =? ?n] => destruct (N.eqb_spec c n); try lia
         end; reflexivity.
Qed.


Lemma unescaped_not_surrogate (c : N) :
  OAuth1.uriUnescaped c = true →
  OAuth1.is_low_surrogate c = false ∧ OAuth1.is_high_surrogate c = false.
Proof.
  intros Hc.
  destruct (OAuth1.is_low_surrogate c) eqn:Hlo.
  { rewrite surrogate_not_unescaped in Hc by by left. done. }
  destruct (OAuth1.is_high_surrogate c) eqn:Hhi.
  { rewrite surrogate_not_unescaped in Hc by by right. done. }
  done.
Qed.

Lemma low_not_high (c : N) :
  OAuth1.is_low_surrogate c = true → OAuth1.is_high_surrogate c = false.
Proof.
  unfold OAuth1.is_low_surrogate, OAuth1.is_high_surrogate.
  intros [H1%N.leb_le _]%andb_prop.
  destruct (N.leb_spec c 56319); [lia|]. by rewrite andb_false_r.
Qed.

(** [percentEncode] returns exactly on the well-formed strings. *)
Lemma percentEncode_is_Some (s : jsstring) :
  is_Some (OAuth1.percentEncode s) ↔ isWellFormed s = true.
Proof.
  induction s as [|c rest IH IH2] using jsstring_pair_ind.
  - split; [reflexivity|]. intros _. by eexists.
  - destruct (OAuth1.uriUnescaped c) eqn:Hc.
    { destruct (unescaped_not_surrogate c Hc) as [Hlo Hhi].
      rewrite percentEncode_cons_unescaped by done. rewrite fmap_is_Some.
      simpl. by rewrite Hlo, Hhi. }
    simpl. destruct (OAuth1.is_low_surrogate c) eqn:Hlo.
    { rewrite percentEncode_cons_lone by (done || by left).
      split; [by intros [? ?]|done]. }
    destruct (OAuth1.is_high_surrogate c) eqn:Hhi.
    + destruct rest as [|d rest'].
      { rewrite percentEncode_cons_lone by (done || by right).
        split; [by intros [? ?]|done]. }
      destruct (OAuth1.is_low_surrogate d) eqn:Hd.
      * rewrite percentEncode_cons_pair by done. rewrite fmap_is_Some. simpl.
        apply (IH2 d rest' eq_refl).
      * rewrite percentEncode_cons_lone by (done || by right).
        split; [by intros [? ?]|done].
    + rewrite percentEncode_cons_escaped by done. by rewrite fmap_is_Some.
Qed.

(** X1: encoding goes piece by piece: the encoding of a concatenation of two
    strings that can be encoded is the concatenation of their encodings. *)
Theorem percentEncode_app (a b ea eb : jsstring) :
  OAuth1.percentEncode a = Some ea →
  OAuth1.percentEncode b = Some eb →
  OAuth1.percentEncode (a ++ b) = Some (ea ++ eb).
Proof.
  intros Ha Hb. revert ea Ha.
  induction a as [|c rest IH IH2] using jsstring_pair_ind; intros ea Ha.
  - injection Ha as <-. exact Hb.
  - destruct (OAuth1.uriUnescaped c) eqn:Hc.
    { rewrite percentEncode_cons_unescaped in Ha by done.
      apply fmap_Some in Ha as (er & Hr & ->).
      rewrite <- app_comm_cons, percentEncode_cons_unescaped by done.
      rewrite (IH er Hr). simpl. by rewrite app_assoc. }
    destruct (OAuth1.is_low_surrogate c) eqn:Hlo.
    { rewrite percentEncode_cons_lone in Ha by (done || by left). done. }
    destruct (OAuth1.is_high_surrogate c) eqn:Hhi.
    + destruct rest as [|d rest'].
      { rewrite percentEncode_cons_lone in Ha by (done || by right). done. }
      destruct (OAuth1.is_low_surrogate d) eqn:Hd.
      * rewrite percentEncode_cons_pair in Ha by done.
        apply fmap_Some in Ha as (er & Hr & ->).
        rewrite <- !app_comm_cons, percentEncode_cons_pair by done.
        rewrite (IH2 d rest' eq_refl er Hr). simpl. by rewrite app_assoc.
      * rewrite percentEncode_cons_lone in Ha by (done || by right). done.
    + rewrite percentEncode_cons_escaped in Ha by done.
      apply fmap_Some in Ha as (er & Hr & ->).
      rewrite <- app_comm_cons, percentEncode_cons_escaped by done.
      rewrite (IH er Hr). simpl. by rewrite app_assoc.
Qed.

Lemma percentEncode_app_witness :
  OAuth1.percentEncode (js "a b" ++ js "c/d") = Some (js "a%20b" ++ js "c%2Fd").
Proof. apply percentEncode_app; vm_compute; reflexivity. Defined.

Lemma pctCodePoint_length (cp : N) : (3 ≤ length (OAuth1.pctCodePoint cp))%nat.
Proof.
  unfold OAuth1.pctCodePoint, OAuth1.utf8.
  repeat match goal with |- context [if ?b then _ else _] => destruct b end;
    simpl; lia.
Qed.

Lemma replaceMark_length (c : N) : (1 ≤ length (OAuth1.replaceMark c))%nat.
Proof. unfold OAuth1.replaceMark. destruct (existsb _ _); simpl; lia. Qed.

(** Encoding never shortens a string. *)
Lemma percentEncode_length (s e : jsstring) :
  OAuth1.percentEncode s = Some e → (length s ≤ length e)%nat.
Proof.
  revert e. induction s as [|c rest IH IH2] using jsstring_pair_ind; intros e He.
  - simpl. lia.
  - destruct (OAuth1.uriUnescaped c) eqn:Hc.
    { rewrite percentEncode_cons_unescaped in He by done.
      apply fmap_Some in He as (er & Hr & ->). rewrite length_app. simpl.
      pose proof (replaceMark_length c). pose proof (IH er Hr). lia. }
    destruct (OAuth1.is_low_surrogate c) eqn:Hlo.
    { rewrite percentEncode_cons_lone in He by (done || by left). done. }
    destruct (OAuth1.is_high_surrogate c) eqn:Hhi.
    + destruct rest as [|d rest'].
      { rewrite percentEncode_cons_lone in He by (done || by right). done. }
      destruct (OAuth1.is_low_surrogate d) eqn:Hd.
      * rewrite percentEncode_cons_pair in He by done.
        apply fmap_Some in He as (er & Hr & ->). rewrite length_app. simpl.
        pose proof (pctCodePoint_length ((c - 55296) * 1024 + (d - 56320) + 65536)).
        pose proof (IH2 d rest' eq_refl er Hr). lia.
      * rewrite percentEncode_cons_lone in He by (done || by right). done.
    + rewrite percentEncode_cons_escaped in He by done.
      apply fmap_Some in He as (er & Hr & ->). rewrite length_app. simpl.
      pose proof (pctCodePoint_length c). pose proof (IH er Hr). lia.
Qed.

(** X2: [percentEncode] throws exactly on the strings in which a surrogate
    stands alone; on every other string it returns a string that is not
    shorter than its argument. *)
Theorem percentEncode_throws_on_lone_surrogates (s : jsstring) :
  (OAuth1.percentEncode s = None ↔ isWellFormed s = false)
  ∧ (∀ e, OAuth1.percentEncode s = Some e → (length s ≤ length e)%nat).
Proof.
  split; [|apply percentEncode_length].
  rewrite eq_None_not_Some, percentEncode_is_Some.
  apply not_true_iff_false.
Qed.

(** X3: encoding is the identity exactly on the strings of unreserved
    characters. *)
Theorem percentEncode_fixpoint_iff_unreserved (s : jsstring) :
  OAuth1.percentEncode s = Some s ↔ forallb OAuth1.unreserved s = true.
Proof.
  split; [|apply percentEncode_unreserved].
  induction s as [|c rest IH IH2] using jsstring_pair_ind; intros He; [done|].
  destruct (OAuth1.uriUnescaped c) eqn:Hc.
  { rewrite percentEncode_cons_unescaped in He by done.
    apply fmap_Some in He as (er & Hr & He).
    unfold OAuth1.replaceMark in He.
    destruct (existsb (N.eqb c) [33; 39; 40; 41; 42]) eqn:Hmark.
    - injection He as -> _. done.
    - injection He as <-. simpl. rewrite (IH Hr), andb_true_r.
      by apply uriUnescaped_not_mark. }
  exfalso.
  destruct (OAuth1.is_low_surrogate c) eqn:Hlo.
  { rewrite percentEncode_cons_lone in He by (done || by left). done. }
  destruct (OAuth1.is_high_surrogate c) eqn:Hhi.
  + destruct rest as [|d rest'].
    { rewrite percentEncode_cons_lone in He by (done || by right). done. }
    destruct (OAuth1.is_low_surrogate d) eqn:Hd.
    * rewrite percentEncode_cons_pair in He by done.
      apply fmap_Some in He as (er & Hr & He).
      apply (f_equal length) in He. rewrite length_app in He. simpl in He.
      pose proof (pctCodePoint_length ((c - 55296) * 1024 + (d - 56320) + 65536)).
      pose proof (percentEncode_length rest' er Hr). lia.
    * rewrite percentEncode_cons_lone in He by (done || by right). done.
  + rewrite percentEncode_cons_escaped in He by done.
    apply fmap_Some in He as (er & Hr & He).
    apply (f_equal length) in He. rewrite length_app in He. simpl in He.
    pose proof (pctCodePoint_length c).
    pose proof (percentEncode_length rest er Hr). lia.
Qed.

(** ** When the signer throws, and the shape of what it signs *)

Lemma slashParams_bounded :
  map_Forall (λ k v : jsstring, Forall (λ c, c < 65536) k ∧ Forall (λ c, c < 65536) v)
    slashParams.
Proof.
  unfold slashParams. apply map_Forall_insert_2; [|apply map_Forall_insert_2].
  - split; repeat constructor.
  - split; repeat constructor.
  - apply map_Forall_empty.
Qed.

Lemma encodedChar_ascii (c : N) : encodedChar c → c < 128.
Proof.
  intros [Hc | ->]; [|lia].
  unfold OAuth1.unreserved, OAuth1.is_alpha, OAuth1.is_digit in Hc. simpl in Hc.
  repeat match goal with
         | H : context [?a <=? ?b] |- _ => destruct (N.leb_spec a b)
         | H : context [?a =? ?b] |- _ => destruct (N.eqb_spec a b)
         end; simpl in Hc; try lia; done.
Qed.

Lemma ascii_isWellFormed (s : jsstring) : Forall (λ c, c < 128) s → isWellFormed s = true.
Proof.
  induction 1 as [|c s Hc _ IH]; [reflexivity|]. simpl.
  unfold OAuth1.is_low_surrogate, OAuth1.is_high_surrogate.
  destruct (N.leb_spec 56320 c); [lia|]. destruct (N.leb_spec 55296 c); [lia|]. exact IH.
Qed.

Lemma join_Forall (P : N → Prop) (sep : jsstring) (parts : list jsstring) :
  Forall P sep → Forall (Forall P) parts → Forall P (join sep parts).
Proof.
  intros Hsep. induction 1 as [|x l Hx Hl IH]; [constructor|].
  destruct l as [|y l]; [exact Hx|].
  change (Forall P (x ++ sep ++ join sep (y :: l))).
  by repeat (apply Forall_app; split).
Qed.

Lemma Object_keys_lookup (params : Params) (k : jsstring) :
  k ∈ OAuth1.Object_keys params ↔ ∃ v, params !! k = Some v.
Proof.
  unfold OAuth1.Object_keys. rewrite list_elem_of_fmap. split.
  - intros ([k' v] & -> & Hkv%elem_of_map_to_list). by exists v.
  - intros [v Hv]. exists (k, v). split; [done|]. by apply elem_of_map_to_list.
Qed.

Lemma get_lookup (params : Params) (k v : jsstring) :
  params !! k = Some v → OAuth1.get params k = v.
Proof. intros Hk. unfold OAuth1.get. by rewrite Hk. Qed.

(** The characters of a parameter string: those of the encoded keys and
    values, [=] and [&]. *)
Lemma paramString_ascii (params : Params) (ps : jsstring) :
  map_Forall (λ k v, Forall (λ c, c < 65536) k ∧ Forall (λ c, c < 65536) v) params →
  OAuth1.paramString params = Some ps →
  Forall (λ c, c < 128) ps.
Proof.
  intros Hbound Hps.
  destruct (paramString_pairs params ps Hps) as (pairs & -> & Hpairs).
  apply join_Forall; [by repeat constructor|].
  assert (Hkeys : Forall (λ k, k ∈ OAuth1.Object_keys params)
                    (merge_sort js_le (OAuth1.Object_keys params))).
  { rewrite sortedKeys_Permutation. apply Forall_forall. intros k Hk. exact Hk. }
  clear Hps. revert Hkeys Hpairs. generalize (merge_sort js_le (OAuth1.Object_keys params)).
  intros keys Hkeys Hpairs.
  induction Hpairs as [|k pair keys' pairs' (ek & ev & Hek & Hev & ->) _ IH];
    [constructor|].
  apply Forall_cons in Hkeys as [Hk Hkeys]. constructor; [|by apply IH].
  apply Object_keys_lookup in Hk as [v Hv].
  destruct (Hbound k v Hv) as [Hbk Hbv]. rewrite (get_lookup params k v Hv) in Hev.
  repeat (apply Forall_app; split).
  - eapply Forall_impl; [exact (percentEncode_chars k ek Hbk Hek)|apply encodedChar_ascii].
  - by repeat constructor.
  - eapply Forall_impl; [exact (percentEncode_chars v ev Hbv Hev)|apply encodedChar_ascii].
Qed.

(** X4: the signer throws exactly when the URL, a key or a value holds a
    surrogate that stands alone; the method never makes it throw. *)
Theorem buildBaseString_throws_iff_lone_surrogate `{!Platform}
    (method url : jsstring) (params : Params) :
  map_Forall (λ k v, Forall (λ c, c < 65536) k ∧ Forall (λ c, c < 65536) v) params →
  is_Some (OAuth1.buildBaseString method url params)
  ↔ isWellFormed url = true
    ∧ map_Forall (λ k v, isWellFormed k = true ∧ isWellFormed v = true) params.
Proof.
  intros Hbound. split.
  - intros [base Hbase].
    destruct (buildBaseString_segments method url base params Hbase)
      as (ps & eurl & eps & Hps & Hurl & _ & _).
    split; [apply percentEncode_is_Some; by eexists|].
    destruct (paramString_pairs params ps Hps) as (pairs & _ & Hpairs).
    intros k v Hkv.
    assert (Hk : k ∈ merge_sort js_le (OAuth1.Object_keys params)).
    { rewrite sortedKeys_Permutation. apply Object_keys_lookup. by exists v. }
    apply list_elem_of_lookup in Hk as [i Hi].
    destruct (Forall2_lookup_l _ _ _ _ _ Hpairs Hi)
      as (pair & _ & ek & ev & Hek & Hev & _).
    rewrite (get_lookup params k v Hkv) in Hev.
    split; apply percentEncode_is_Some; by eexists.
  - intros [Hurl Hwf].
    assert (Hpairs : is_Some (OAuth1.paramString params)).
    { unfold OAuth1.paramString. apply fmap_is_Some, mapM_is_Some.
      rewrite sortedKeys_Permutation. apply Forall_forall.
      intros k [v Hv]%Object_keys_lookup. destruct (Hwf k v Hv) as [Hk Hv'].
      apply percentEncode_is_Some in Hk as [ek Hek].
      apply percentEncode_is_Some in Hv' as [ev Hev].
      unfold compose, OAuth1.encodePair. rewrite (get_lookup params k v Hv), Hek, Hev.
      by eexists. }
    destruct Hpairs as [ps Hps].
    apply percentEncode_is_Some in Hurl as [eurl Heurl].
    destruct (proj2 (percentEncode_is_Some ps)) as [eps Heps].
    { apply ascii_isWellFormed. by apply (paramString_ascii params). }
    unfold OAuth1.buildBaseString. rewrite Hps. simpl. rewrite Heurl. simpl.
    rewrite Heps. by eexists.
Qed.

Lemma buildBaseString_throws_iff_lone_surrogate_witness :
  is_Some (@OAuth1.buildBaseString samplePlatform (js "get") (js "https://h/p") slashParams)
  ↔ isWellFormed (js "https://h/p") = true
    ∧ map_Forall (λ k v, isWellFormed k = true ∧ isWellFormed v = true) slashParams.
Proof.
  apply (@buildBaseString_throws_iff_lone_surrogate samplePlatform).
  exact slashParams_bounded.
Defined.

(** X5: the shape of a base string: the upper-cased method, the encoded URL
    and the encoded parameter string, joined by [&]; the two encoded
    segments hold unreserved characters and [%] only, so that no [&], [=]
    or [+] stands in them; and the parameter string that is encoded holds
    one pair for each parameter. *)
Theorem buildBaseString_shape `{!Platform}
    (method url base : jsstring) (params : Params) :
  Forall (λ c, c < 65536) url →
  map_Forall (λ k v, Forall (λ c, c < 65536) k ∧ Forall (λ c, c < 65536) v) params →
  OAuth1.buildBaseString method url params = Some base →
  ∃ eurl eps pairs,
    base = toUpperCase method ++ js "&" ++ eurl ++ js "&" ++ eps
    ∧ OAuth1.percentEncode url = Some eurl
    ∧ OAuth1.percentEncode (join (js "&") pairs) = Some eps
    ∧ (length pairs = size params)
    ∧ Forall encodedChar eurl ∧ Forall encodedChar eps
    ∧ (∀ c, c ∈ [43; 38; 61] → (c ∉ eurl) ∧ (c ∉ eps)).
Proof.
  intros Hurl Hbound Hbase.
  destruct (buildBaseString_segments method url base params Hbase)
    as (ps & eurl & eps & Hps & Heurl & Heps & ->).
  pose proof (paramString_ascii params ps Hbound Hps) as Hascii.
  assert (Hps16 : Forall (λ c, c < 65536) ps).
  { eapply Forall_impl; [exact Hascii|]. intros c Hc. simpl in Hc. lia. }
  destruct (paramString_pairs params ps Hps) as (pairs & -> & Hpairs).
  exists eurl, eps, pairs. split; [reflexivity|]. split; [exact Heurl|].
  split; [exact Heps|]. split.
  { rewrite <- (Forall2_length _ _ _ Hpairs), sortedKeys_Permutation.
    unfold OAuth1.Object_keys. by rewrite length_fmap, length_map_to_list. }
  split; [by apply (percentEncode_chars url)|].
  split; [by apply (percentEncode_chars (join (js "&") pairs))|].
  intros c Hc. split.
  - exact (percentEncode_no_separator url eurl c Hurl Heurl Hc).
  - exact (percentEncode_no_separator _ eps c Hps16 Heps Hc).
Qed.

Lemma buildBaseString_shape_witness :
  ∃ eurl eps pairs,
    asciiUpper (js "get") ++ js "&" ++ js "https%3A%2F%2Fh%2Fp" ++ js "&"
      ++ js "a-%3D1%26a%252F%3D2"
    = asciiUpper (js "get") ++ js "&" ++ eurl ++ js "&" ++ eps
    ∧ OAuth1.percentEncode (js "https://h/p") = Some eurl
    ∧ OAuth1.percentEncode (join (js "&") pairs) = Some eps
    ∧ (length pairs = size slashParams).
Proof.
  destruct (@buildBaseString_shape samplePlatform (js "get") (js "https://h/p")
              (asciiUpper (js "get") ++ js "&" ++ js "https%3A%2F%2Fh%2Fp" ++ js "&"
                 ++ js "a-%3D1%26a%252F%3D2") slashParams)
    as (eurl & eps & pairs & Hbase & Hurl & Heps & Hlen & _).
  - repeat constructor.
  - exact slashParams_bounded.
  - vm_compute. reflexivity.
  - exists eurl, eps, pairs. repeat split; assumption.
Defined.

Lemma oauthParams0_no_signature (credentials : OAuth1Credentials) (nonce timestamp : jsstring) :
  OAuth1.oauthParams0 credentials nonce timestamp !! js "oauth_signature" = None.
Proof.
  unfold OAuth1.oauthParams0.
  destruct (accessToken credentials) as [token|]; [|by js_lookup].
  destruct (truthy token); by js_lookup.
Qed.

(** X6: what [buildOAuth1Params] returns holds every parameter of the caller
    with the caller's value, and its [oauth_signature] is the HMAC, keyed
    with the two secrets, of the base string of all the other parameters
    it returns; the call draws one nonce and touches nothing else. *)
Theorem buildOAuth1Params_signs_what_it_returns `{!Platform}
    (method url : jsstring) (credentials : OAuth1Credentials) (extraParams params : Params)
    (w w1 : World) :
  OAuth1.buildOAuth1Params method url credentials extraParams w = Done (Returned params) w1 →
  extraParams !! js "oauth_signature" = None →
  (∀ k v, extraParams !! k = Some v → params !! k = Some v)
  ∧ (∃ key base,
       OAuth1.signingKey (consumerSecret credentials)
         (or_empty (accessTokenSecret credentials)) = Some key
       ∧ OAuth1.buildBaseString method url (delete (js "oauth_signature") params) = Some base
       ∧ params !! js "oauth_signature" = Some (hmac_sha1_base64 key base))
  ∧ server w1 = server w ∧ disk w1 = disk w ∧ now w1 = now w ∧ drawn w1 = S (drawn w).
Proof.
  intros Hrun Hextra.
  destruct (buildOAuth1Params_Done method url credentials extraParams w)
    as [Hthrown | (base & key & Hbase & Hkey & Hret)].
  { rewrite Hthrown in Hrun. done. }
  rewrite Hret in Hrun. injection Hrun as <- <-.
  split; [intros k v Hk; by apply lookup_union_Some_l|].
  split; [|done].
  exists key, base. split; [exact Hkey|]. split.
  - rewrite delete_union, (delete_id extraParams) by done.
    rewrite delete_insert_eq, delete_id by apply oauthParams0_no_signature.
    exact Hbase.
  - rewrite lookup_union_r by done. by js_lookup.
Qed.

Lemma buildOAuth1Params_signs_what_it_returns_witness :
  ∃ params w1,
    @OAuth1.buildOAuth1Params samplePlatform (js "GET") OAuth1.REQUEST_TOKEN_URL
      (oauth1Credentials sampleServer) {[ js "oauth_callback" := js "oob" ]} sampleWorld
    = Done (Returned params) w1
    ∧ params !! js "oauth_callback" = Some (js "oob")
    ∧ drawn w1 = 1%nat.
Proof.
  destruct (@OAuth1.buildOAuth1Params samplePlatform (js "GET") OAuth1.REQUEST_TOKEN_URL
              (oauth1Credentials sampleServer) {[ js "oauth_callback" := js "oob" ]}
              sampleWorld) as [[params|e] w1|req w1 k] eqn:Hrun.
  - exists params, w1. split; [reflexivity|].
    destruct (@buildOAuth1Params_signs_what_it_returns samplePlatform _ _ _ _ params
                sampleWorld w1 Hrun) as (Hkeep & _ & _ & _ & _ & Hdrawn).
    + vm_compute. reflexivity.
    + split; [apply Hkeep; vm_compute; reflexivity|exact Hdrawn].
  - vm_compute in Hrun. discriminate Hrun.
  - vm_compute in Hrun. discriminate Hrun.
Defined.


(** X7: [requestToken], once its request is out and answered: a granting
    answer gives the token, its secret and the authorization URL naming the
    token, both non-empty; any other answer gives the matching error. *)
Theorem requestToken_outcome `{!Platform} (credentials : OAuth1Credentials) (w : World)
    (t : Z) (r : FetchResult) (net : list (Z * FetchResult)) :
  sent (exec (OAuth1.requestToken credentials) w ((t, r) :: net)) ≠ [] →
  result (exec (OAuth1.requestToken credentials) w ((t, r) :: net))
  = Some (match grantedToken r with
          | Some (token, secret) =>
              Returned {| OAuth1.oauthToken := token; OAuth1.oauthTokenSecret := secret;
                          OAuth1.authorizationUrl :=
                            OAuth1.AUTHORIZE_URL ++ js "?oauth_token=" ++ token |}
          | None => Thrown (legError FailedToGetRequestToken InvalidRequestTokenResponse r)
          end)
  ∧ length (sent (exec (OAuth1.requestToken credentials) w ((t, r) :: net))) = 1%nat
  ∧ server (final (exec (OAuth1.requestToken credentials) w ((t, r) :: net))) = server w.
Proof.
  unfold exec, OAuth1.requestToken, bind.
  match goal with
  | |- context [OAuth1.buildOAuth1Params ?m ?u ?c ?e w] =>
      destruct (buildOAuth1Params_Done m u c e w) as [-> | (base & key & _ & _ & ->)]
  end; [done|].
  intros _. simpl.
  destruct r as [|response]; [done|]. simpl.
  destruct (ok response); [|done]. simpl.
  destruct (form_get (js "oauth_token") (form response)) as [token|]; [|done].
  destruct (form_get (js "oauth_token_secret") (form response)) as [secret|]; [|done].
  destruct (truthy token), (truthy secret); done.
Qed.

Lemma requestToken_outcome_witness :
  result (exec (@OAuth1.requestToken samplePlatform (oauth1Credentials sampleServer))
            sampleWorld [(1700000001000%Z, tokenAnswer (js "A") (js "sA"))])
  = Some (Returned {| OAuth1.oauthToken := js "A"; OAuth1.oauthTokenSecret := js "sA";
                      OAuth1.authorizationUrl :=
                        OAuth1.AUTHORIZE_URL ++ js "?oauth_token=" ++ js "A" |}).
Proof.
  destruct (@requestToken_outcome samplePlatform (oauth1Credentials sampleServer)
              sampleWorld 1700000001000%Z (tokenAnswer (js "A") (js "sA")) [])
    as (Hres & _).
  - vm_compute. discriminate.
  - exact Hres.
Defined.

(** X8: [accessToken] signs with the request token it is given, whatever user
    token the credentials hold, and classifies the answer in the same way. *)
Theorem accessToken_outcome `{!Platform} (credentials : OAuth1Credentials)
    (oauthToken oauthTokenSecret verifier : jsstring) (w : World)
    (t : Z) (r : FetchResult) (net : list (Z * FetchResult)) :
  truthy oauthToken = true →
  sent (exec (OAuth1.accessToken credentials oauthToken oauthTokenSecret verifier) w
          ((t, r) :: net)) ≠ [] →
  let run := exec (OAuth1.accessToken credentials oauthToken oauthTokenSecret verifier) w
               ((t, r) :: net) in
  result run
  = Some (match grantedToken r with
          | Some (token, secret) =>
              Returned {| OAuth1.accessTokenValue := token;
                          OAuth1.accessTokenSecretValue := secret |}
          | None => Thrown (legError FailedToGetAccessToken InvalidAccessTokenResponse r)
          end)
  ∧ (∃ req key base,
       sent run = [req]
       ∧ req_params req !! js "oauth_token" = Some oauthToken
       ∧ req_params req !! js "oauth_verifier" = Some verifier
       ∧ OAuth1.signingKey (consumerSecret credentials) oauthTokenSecret = Some key
       ∧ req_params req !! js "oauth_signature" = Some (hmac_sha1_base64 key base))
  ∧ server (final run) = server w.
Proof.
  intros Htok. unfold exec, OAuth1.accessToken, bind.
  match goal with
  | |- context [OAuth1.buildOAuth1Params ?m ?u ?c ?e w] =>
      destruct (buildOAuth1Params_Done m u c e w) as [-> | (base & key & _ & Hkey & ->)]
  end; [done|].
  intros _.
  match goal with
  | |- context [Returned (?e ∪ ?o)] => set (params := e ∪ o)
  end.
  assert (Hreq : params !! js "oauth_token" = Some oauthToken
                 ∧ params !! js "oauth_verifier" = Some verifier
                 ∧ OAuth1.signingKey (consumerSecret credentials) oauthTokenSecret = Some key
                 ∧ params !! js "oauth_signature" = Some (hmac_sha1_base64 key base)).
  { subst params. split; [|split; [|split; [exact Hkey|]]].
    - rewrite lookup_union_r by by js_lookup.
      rewrite lookup_insert_ne by js_neq. by apply oauthParams0_token.
    - apply lookup_union_Some_l. by js_lookup.
    - rewrite lookup_union_r by by js_lookup. by js_lookup. }
  clearbody params. simpl.
  destruct r as [|response]; simpl; [by eauto 10|].
  destruct (ok response); simpl; [|by eauto 10].
  destruct (form_get (js "oauth_token") (form response)) as [token|]; [|by eauto 10].
  destruct (form_get (js "oauth_token_secret") (form response)) as [secret|];
    [|by eauto 10].
  destruct (truthy token), (truthy secret); simpl; by eauto 10.
Qed.

Lemma accessToken_outcome_witness :
  result (exec (@OAuth1.accessToken samplePlatform (oauth1Credentials authorizedServer)
                  (js "rt") (js "rs") (js "123456"))
            authorizedWorld [(1700000001000%Z, Rejected)])
  = Some (Thrown FetchFailed).
Proof.
  destruct (@accessToken_outcome samplePlatform (oauth1Credentials authorizedServer)
              (js "rt") (js "rs") (js "123456") authorizedWorld 1700000001000%Z
              Rejected []) as (Hres & _).
  - reflexivity.
  - vm_compute. discriminate.
  - exact Hres.
Defined.

(** ** The bearer token across calls *)

Import Index.

(** A miss answered by a successful grant, run to its end. *)
Lemma getOAuth2Token_grant_run (w : World) (t1 : Z) (r : Response) (data : TokenJson)
    (net : list (Z * FetchResult)) :
  hasApiCredentials (server w) = true →
  cached (now w) (server w) = false →
  ok r = true → json r = Some data →
  exec getOAuth2Token w ((t1, Resolved r) :: net)
  = {| result := Some (Returned (access_token data));
       final := set_server
                  (set_oauth2 (Some (access_token data))
                     (t1 + (expires_in data - 60) * 1000)%Z (server w)) (set_now t1 w);
       sent := [grantRequest (server w)] |}.
Proof.
  intros Hcred Hmiss Hok Hdata. unfold cached in Hmiss.
  unfold exec, getOAuth2Token, bind, ensureApiCredentials.
  rewrite Hcred. simpl. rewrite Hmiss. simpl. rewrite Hok, Hdata. reflexivity.
Qed.

(** A hit, run to its end. *)
Lemma getOAuth2Token_hit_run (w : World) (net : list (Z * FetchResult)) :
  hasApiCredentials (server w) = true →
  cached (now w) (server w) = true →
  exec getOAuth2Token w net
  = {| result := Some (Returned (or_empty (oauth2Token (server w))));
       final := w; sent := [] |}.
Proof.
  intros Hcred Hhit. unfold cached in Hhit.
  unfold exec, getOAuth2Token, bind, ensureApiCredentials.
  rewrite Hcred. simpl. rewrite Hhit. reflexivity.
Qed.

(** X9: a bearer token that was granted is served from the cache, without any
    request, for as long as the clock is before the grant time plus the
    lifetime less 60 seconds. *)
Theorem getOAuth2Token_reuses_granted_token (w : World) (t1 t2 : Z) (r : Response)
    (data : TokenJson) (net : list (Z * FetchResult)) :
  hasApiCredentials (server w) = true →
  cached (now w) (server w) = false →
  ok r = true → json r = Some data →
  truthy (access_token data) = true →
  (t2 < t1 + (expires_in data - 60) * 1000)%Z →
  let first := exec getOAuth2Token w [(t1, Resolved r)] in
  let second := exec getOAuth2Token (set_now t2 (final first)) net in
  result first = Some (Returned (access_token data))
  ∧ sent first = [grantRequest (server w)]
  ∧ result second = Some (Returned (access_token data))
  ∧ sent second = []
  ∧ server (final second) = server (final first).
Proof.
  intros Hcred Hmiss Hok Hdata Htok Hlt first second. subst first second.
  rewrite (getOAuth2Token_grant_run w t1 r data [] Hcred Hmiss Hok Hdata).
  cbn [result final sent].
  rewrite getOAuth2Token_hit_run; [done|exact Hcred|].
  unfold cached. cbn. rewrite Htok. by apply Z.ltb_lt.
Qed.

Lemma getOAuth2Token_reuses_granted_token_witness :
  sent (exec getOAuth2Token
          (set_now 1700003000000%Z
             (final (exec getOAuth2Token sampleWorld
                       [(1700000001000%Z, Resolved (grantAnswer 0))]))) [])
  = [].
Proof.
  destruct (getOAuth2Token_reuses_granted_token sampleWorld 1700000001000 1700003000000
              (grantAnswer 0) {| access_token := js "T" ++ js (pretty 0%nat);
                                 expires_in := 3600 |} []
              eq_refl eq_refl eq_refl eq_refl eq_refl eq_refl)
    as (_ & _ & _ & Hsent & _).
  exact Hsent.
Defined.

(** X10: a granted token whose lifetime is at most 60 seconds, or which is the
    empty string, is never served from the cache: every later call sends a
    new grant. *)
Theorem getOAuth2Token_never_reuses_short_lived_token (w : World) (t1 t2 : Z)
    (r : Response) (data : TokenJson) :
  hasApiCredentials (server w) = true →
  cached (now w) (server w) = false →
  ok r = true → json r = Some data →
  (expires_in data ≤ 60)%Z ∨ access_token data = [] →
  (t1 ≤ t2)%Z →
  let first := exec getOAuth2Token w [(t1, Resolved r)] in
  oauth2Token (server (final first)) = Some (access_token data)
  ∧ cached t2 (server (final first)) = false
  ∧ ∃ k, getOAuth2Token (set_now t2 (final first))
         = Await (grantRequest (server w)) (set_now t2 (final first)) k.
Proof.
  intros Hcred Hmiss Hok Hdata Hshort Hle first. subst first.
  rewrite (getOAuth2Token_grant_run w t1 r data [] Hcred Hmiss Hok Hdata).
  cbn [result final sent].
  assert (Hc : ∀ t1', cached t2
             (server (set_server
                (set_oauth2 (Some (access_token data))
                   (t1 + (expires_in data - 60) * 1000)%Z (server w)) (set_now t1' w)))
           = false).
  { intros t1'. unfold cached. cbn.
    destruct Hshort as [Hshort | ->]; [|reflexivity].
    apply andb_false_intro2. apply Z.ltb_ge. lia. }
  split; [reflexivity|]. split; [apply Hc|].
  destruct getOAuth2Token_miss as (k & Hsend & _). exists k.
  rewrite Hsend; [reflexivity|exact Hcred|apply Hc].
Qed.

Lemma getOAuth2Token_never_reuses_short_lived_token_witness :
  cached 1700000001000
    (server (final (exec getOAuth2Token sampleWorld [(1700000001000%Z, Resolved shortGrant)])))
  = false.
Proof.
  destruct (getOAuth2Token_never_reuses_short_lived_token sampleWorld
              1700000001000 1700000001000 shortGrant
              {| access_token := js "T"; expires_in := 60 |}
              eq_refl eq_refl eq_refl eq_refl)
    as (_ & Hmiss & _).
  - left. simpl. lia.
  - lia.
  - exact Hmiss.
Defined.

(** X11: [check_auth_status] reads the state and reports what the two guards
    would decide: credentials are reported as configured exactly when
    [ensureApiCredentials] passes, the profile as authenticated exactly when
    [ensureProfileAuth] passes. *)
Theorem check_auth_status_agrees_with_guards (w : World) :
  ∃ st, check_auth_status w = Done (Returned st) w
    ∧ (credentials_configured st = true ↔ ensureApiCredentials w = Done (Returned tt) w)
    ∧ (profile_authenticated st = true ↔ ensureProfileAuth w = Done (Returned tt) w).
Proof.
  unfold check_auth_status, ensureProfileAuth, bind, ensureApiCredentials.
  destruct (hasApiCredentials (server w)); simpl.
  - eexists. split; [reflexivity|]. simpl. split; [done|].
    destruct (otruthy (accessToken _)), (otruthy (accessTokenSecret _)); simpl; done.
  - eexists. split; [reflexivity|]. simpl. done.
Qed.




(** X13: with a bearer token the public call goes out with that token in its
    [Authorization] header: the cached one when the clock is before its
    deadline (no other request is made), the freshly granted one after a
    miss (the grant is the only other request). *)
Theorem publicClient_sends_call_with_token (w : World) (method path : jsstring)
    (query : Params) :
  hasApiCredentials (server w) = true →
  let call := {| req_method := method; req_url := BASE_URL ++ path; req_params := query |} in
  (cached (now w) (server w) = true →
   oauth2Middleware call w
   = Done (Returned (call, js "Bearer " ++ or_empty (oauth2Token (server w)))) w
   ∧ ∀ net, sent (exec (publicClient method path query) w net) = [call])
  ∧ (cached (now w) (server w) = false →
     ∀ t r data net, ok r = true → json r = Some data →
       result (exec (oauth2Middleware call) w ((t, Resolved r) :: net))
       = Some (Returned (call, js "Bearer " ++ access_token data))
       ∧ sent (exec (publicClient method path query) w ((t, Resolved r) :: net))
         = [grantRequest (server w); call]).
Proof.
  intros Hcred call. split.
  - intros Hhit. pose proof (getOAuth2Token_hit_run w [] Hcred Hhit) as Hrun.
    unfold exec, publicClient, oauth2Middleware, bind in *.
    destruct (getOAuth2Token w) as [[token|e'] w'|req w' k]; simpl in *; [|done|done].
    injection Hrun as -> ->. split; [reflexivity|].
    intros [|[t r] net]; reflexivity.
  - intros Hmiss t r data net Hok Hdata.
    pose proof (getOAuth2Token_grant_run w t r data [] Hcred Hmiss Hok Hdata) as Hrun.
    unfold exec, publicClient, oauth2Middleware, bind in *.
    destruct (getOAuth2Token w) as [[token|e'] w'|req w' k]; simpl in *; [done|done|].
    destruct (k (Resolved r) (set_now t w')) as [[token|e'] w''|req' w'' k'];
      simpl in *; [|done|done].
    injection Hrun as -> _ ->. split; [reflexivity|].
    destruct net as [|[t' r'] net]; reflexivity.
Qed.

Lemma publicClient_sends_call_with_token_witness :
  sent (exec (publicClient (js "GET") (js "/food/v5") {[ js "food_id" := js "1" ]})
          sampleWorld [(1700000001000%Z, Resolved (grantAnswer 0))])
  = [grantRequest sampleServer;
     {| req_method := js "GET"; req_url := BASE_URL ++ js "/food/v5";
        req_params := {[ js "food_id" := js "1" ]} |}].
Proof.
  destruct (publicClient_sends_call_with_token sampleWorld (js "GET") (js "/food/v5")
              {[ js "food_id" := js "1" ]} eq_refl) as [_ Hmiss].
  destruct (Hmiss eq_refl 1700000001000%Z (grantAnswer 0)
              {| access_token := js "T" ++ js (pretty 0%nat); expires_in := 3600 |} []
              eq_refl eq_refl) as [_ Hsent].
  exact Hsent.
Defined.

(** ** The authorization flow *)

Section Flow.
Context `{!Platform}.


(** [start_auth] answered by a grant, run to its end. *)
Lemma start_auth_granted_run (w : World) (t : Z) (r : FetchResult)
    (net : list (Z * FetchResult)) (tok sec : jsstring) :
  hasApiCredentials (server w) = true →
  grantedToken r = Some (tok, sec) →
  sent (exec start_auth w ((t, r) :: net)) ≠ [] →
  ∃ req, exec start_auth w ((t, r) :: net)
         = {| result := Some (Returned (OAuth1.AUTHORIZE_URL ++ js "?oauth_token=" ++ tok));
              final := set_server (set_pendingOAuth (Some (tok, sec)) (server w))
                         (answered t w);
              sent := [req] |}.
Proof.
  intros Hcred Hr. unfold exec, start_auth, bind, ensureApiCredentials.
  rewrite Hcred. simpl.
  destruct (requestToken_step (oauth1Credentials (server w)) w)
    as [-> | (params & k & -> & _ & _ & _ & Hok & _)]; [done|].
  intros _. simpl. rewrite (Hok r _ tok sec Hr). simpl. by eexists.
Qed.

(** [start_auth] answered by anything else, or stopped before its request:
    it fails and the server and the file are as before. *)
Lemma start_auth_refused_run (w : World) (t : Z) (r : FetchResult)
    (net : list (Z * FetchResult)) :
  grantedToken r = None →
  ∃ e, result (exec start_auth w ((t, r) :: net)) = Some (Thrown e)
       ∧ server (final (exec start_auth w ((t, r) :: net))) = server w
       ∧ disk (final (exec start_auth w ((t, r) :: net))) = disk w.
Proof.
  intros Hr. unfold exec, start_auth, bind, ensureApiCredentials.
  destruct (hasApiCredentials (server w)); simpl; [|by eexists].
  destruct (requestToken_step (oauth1Credentials (server w)) w)
    as [-> | (params & k & -> & _ & _ & _ & _ & Hfail)]; [by eexists|].
  simpl.
  match goal with
  | |- context [k r ?w'] => destruct (Hfail r w' Hr) as [e ->]
  end.
  by eexists.
Qed.

(** What a [start_auth] that returns has done. *)
Lemma start_auth_returned (w : World) (t : Z) (r : FetchResult)
    (net : list (Z * FetchResult)) (url : jsstring) :
  result (exec start_auth w ((t, r) :: net)) = Some (Returned url) →
  hasApiCredentials (server w) = true
  ∧ ∃ tok sec,
      grantedToken r = Some (tok, sec)
      ∧ url = OAuth1.AUTHORIZE_URL ++ js "?oauth_token=" ++ tok
      ∧ final (exec start_auth w ((t, r) :: net))
        = set_server (set_pendingOAuth (Some (tok, sec)) (server w)) (answered t w).
Proof.
  intros Hres.
  destruct (grantedToken r) as [[tok sec]|] eqn:Hr.
  2:{ destruct (start_auth_refused_run w t r net Hr) as (e & He & _). congruence. }
  assert (Hcred : hasApiCredentials (server w) = true).
  { revert Hres. unfold exec, start_auth, bind, ensureApiCredentials.
    destruct (hasApiCredentials (server w)); done. }
  assert (Hsent : sent (exec start_auth w ((t, r) :: net)) ≠ []).
  { revert Hres. unfold exec, start_auth, bind, ensureApiCredentials.
    rewrite Hcred. simpl.
    destruct (requestToken_step (oauth1Credentials (server w)) w)
      as [-> | (params & k & -> & _)]; done. }
  destruct (start_auth_granted_run w t r net tok sec Hcred Hr Hsent) as [req Hrun].
  rewrite Hrun in Hres |- *. simpl in *. injection Hres as <-.
  split; [done|]. by exists tok, sec.
Qed.


(** [complete_auth] with a pending token, answered by a grant, run to its end. *)
Lemma complete_auth_granted_run (w : World) (verifier token secret : jsstring) (t : Z)
    (r : FetchResult) (net : list (Z * FetchResult)) (at_ ats : jsstring) :
  pendingOAuth (server w) = Some (token, secret) →
  grantedToken r = Some (at_, ats) →
  sent (exec (complete_auth verifier) w ((t, r) :: net)) ≠ [] →
  ∃ req, exec (complete_auth verifier) w ((t, r) :: net)
         = {| result := Some (Returned tt); final := authorized at_ ats (answered t w);
              sent := [req] |}.
Proof.
  intros Hpending Hr. unfold exec, complete_auth. rewrite Hpending. unfold bind.
  destruct (accessToken_step (oauth1Credentials (server w)) token secret verifier w)
    as [-> | (params & k & -> & _ & _ & _ & Hok & _)]; [done|].
  intros _. simpl. rewrite (Hok r _ at_ ats Hr). simpl. by eexists.
Qed.

(** What a [complete_auth] that returns has done. *)
Lemma complete_auth_returned (w : World) (verifier : jsstring) (t : Z)
    (r : FetchResult) (net : list (Z * FetchResult)) :
  result (exec (complete_auth verifier) w ((t, r) :: net)) = Some (Returned tt) →
  ∃ at_ ats,
    grantedToken r = Some (at_, ats)
    ∧ final (exec (complete_auth verifier) w ((t, r) :: net))
      = authorized at_ ats (answered t w).
Proof.
  intros Hres.
  destruct (pendingOAuth (server w)) as [[token secret]|] eqn:Hpending.
  2:{ revert Hres. unfold exec, complete_auth. rewrite Hpending. done. }
  destruct (complete_auth_step w verifier token secret Hpending)
    as [(w1 & Hthrown & _) | (req & w1 & K & Hstep & _ & _ & _ & _ & _ & _ & HK)].
  { revert Hres. unfold exec. rewrite Hthrown. done. }
  destruct (grantedToken r) as [[at_ ats]|] eqn:Hr.
  - exists at_, ats. split; [done|].
    destruct (complete_auth_granted_run w verifier token secret t r net at_ ats
                Hpending Hr) as [req' ->]; [|done].
    unfold exec. rewrite Hstep. destruct net; done.
  - revert Hres. unfold exec. rewrite Hstep. simpl.
    match goal with
    | |- context [K r ?w'] => destruct (HK r w') as [Hfail _]
    end.
    destruct (Hfail Hr) as [e ->]. done.
Qed.
End Flow.


(** X14: a [start_auth] that does not get a token fails and leaves the server
    and the file as they were: a request token that was pending before is
    still the one that [complete_auth] exchanges afterwards. *)
Theorem start_auth_failure_keeps_pending_token `{!Platform} (w : World) (t : Z) (r : FetchResult)
    (net : list (Z * FetchResult)) :
  grantedToken r = None →
  let run := exec start_auth w ((t, r) :: net) in
  (∃ e, result run = Some (Thrown e))
  ∧ server (final run) = server w ∧ disk (final run) = disk w
  ∧ (hasApiCredentials (server w) = false →
     result run = Some (Thrown ApiCredentialsNotConfigured) ∧ sent run = [])
  ∧ ∀ tok sec verifier net' req,
      pendingOAuth (server w) = Some (tok, sec) → truthy tok = true →
      req ∈ sent (exec (complete_auth verifier) (final run) net') →
      req_params req !! js "oauth_token" = Some tok.
Proof.
  intros Hr run. subst run.
  destruct (start_auth_refused_run w t r net Hr) as (e & Hres & Hserver & Hdisk).
  split; [by exists e|]. split; [exact Hserver|]. split; [exact Hdisk|]. split.
  - intros Hcred. unfold exec, start_auth, bind, ensureApiCredentials.
    rewrite Hcred. done.
  - intros tok sec verifier net' req Hpending Htok Hreq.
    rewrite <- Hserver in Hpending.
    destruct (complete_auth_requests _ verifier tok sec net' req Hpending Hreq)
      as (_ & Hp & _). by apply Hp.
Qed.

Lemma start_auth_failure_keeps_pending_token_witness :
  server (final (exec (@start_auth samplePlatform) pendingWorld [(1700000001000%Z, Rejected)]))
  = server pendingWorld.
Proof.
  destruct (@start_auth_failure_keeps_pending_token samplePlatform pendingWorld
              1700000001000%Z Rejected [] eq_refl) as (_ & Hserver & _).
  exact Hserver.
Defined.



(** X16: a request token is exchanged once: after a [complete_auth] that
    returns, the user token of the answer is in the credentials and in the
    file, and a further [complete_auth] fails with the no-pending-flow
    error without sending anything. *)
Theorem complete_auth_consumes_pending_token `{!Platform} (w : World) (verifier verifier' : jsstring)
    (t : Z) (r : FetchResult) (net net' : list (Z * FetchResult)) :
  let run := exec (complete_auth verifier) w ((t, r) :: net) in
  result run = Some (Returned tt) →
  (∃ at_ ats,
     grantedToken r = Some (at_, ats)
     ∧ accessToken (oauth1Credentials (server (final run))) = Some at_
     ∧ accessTokenSecret (oauth1Credentials (server (final run))) = Some ats
     ∧ default ∅ (disk (final run)) !! js "accessToken" = Some at_
     ∧ default ∅ (disk (final run)) !! js "accessTokenSecret" = Some ats)
  ∧ exec (complete_auth verifier') (final run) net'
    = {| result := Some (Thrown NoPendingOAuthFlow); final := final run; sent := [] |}.
Proof.
  intros run Hres. subst run.
  destruct (complete_auth_returned w verifier t r net Hres) as (at_ & ats & Hr & ->).
  split; [|reflexivity].
  exists at_, ats. split; [exact Hr|]. split; [reflexivity|]. split; [reflexivity|].
  simpl. split.
  - apply lookup_union_Some_l. by js_lookup.
  - apply lookup_union_Some_l. by js_lookup.
Qed.

Lemma complete_auth_consumes_pending_token_witness :
  let run := exec (@complete_auth samplePlatform (js "123456")) pendingWorld
               [(1700000001000%Z, tokenAnswer (js "at") (js "ats"))] in
  exec (@complete_auth samplePlatform (js "123456")) (final run) []
  = {| result := Some (Thrown NoPendingOAuthFlow); final := final run; sent := [] |}.
Proof.
  intros run.
  destruct (@complete_auth_consumes_pending_token samplePlatform pendingWorld
              (js "123456") (js "123456") 1700000001000%Z
              (tokenAnswer (js "at") (js "ats")) [] []) as [_ Hsecond].
  - vm_compute. reflexivity.
  - exact Hsecond.
Defined.

(** X17: every request that a profile call sends is the call itself, with the
    parameters of the caller, signed with the stored user token. *)
Theorem profileClient_signs_with_user_token `{!Platform} (w : World) (method path : jsstring)
    (query : Params) (net : list (Z * FetchResult)) (req : Request) :
  req ∈ sent (exec (profileClient method path query) w net) →
  query !! js "oauth_token" = None →
  query !! js "oauth_signature" = None →
  ∃ token secret key base,
    accessToken (oauth1Credentials (server w)) = Some token
    ∧ accessTokenSecret (oauth1Credentials (server w)) = Some secret
    ∧ truthy token = true ∧ truthy secret = true
    ∧ req_method req = method ∧ req_url req = BASE_URL ++ path
    ∧ (∀ k v, query !! k = Some v → req_params req !! k = Some v)
    ∧ req_params req !! js "oauth_token" = Some token
    ∧ OAuth1.signingKey (consumerSecret (oauth1Credentials (server w))) secret = Some key
    ∧ req_params req !! js "oauth_signature" = Some (hmac_sha1_base64 key base).
Proof.
  unfold exec, profileClient, oauth1Middleware, ensureProfileAuth, bind,
    ensureApiCredentials.
  destruct (hasApiCredentials (server w)); simpl; [|by intros ?%elem_of_nil].
  destruct (accessToken (oauth1Credentials (server w))) as [token|] eqn:Htoken;
    simpl; [|by intros ?%elem_of_nil].
  destruct (truthy token) eqn:Htruthy; simpl; [|by intros ?%elem_of_nil].
  destruct (accessTokenSecret (oauth1Credentials (server w))) as [secret|] eqn:Hsecret;
    simpl; [|by intros ?%elem_of_nil].
  destruct (truthy secret) eqn:Htruthy'; simpl; [|by intros ?%elem_of_nil].
  match goal with
  | |- context [OAuth1.buildOAuth1Params ?m ?u ?c ?e w] =>
      destruct (buildOAuth1Params_Done m u c e w) as [-> | (base & key & _ & Hkey & ->)]
  end; [by intros ?%elem_of_nil|].
  simpl. rewrite Hsecret in Hkey. simpl in Hkey.
  intros Hreq Hq Hq'.
  assert (req = {| req_method := method; req_url := BASE_URL ++ path;
                   req_params :=
                     query ∪ <[js "oauth_signature" := hmac_sha1_base64 key base]>
                       (OAuth1.oauthParams0 (oauth1Credentials (server w))
                          (random w (drawn w)) (OAuth1.generateTimestamp w)) |}) as ->.
  { destruct net as [|[t r] net]; simpl in Hreq;
      by apply list_elem_of_singleton in Hreq. }
  exists token, secret, key, base. simpl.
  repeat (split; [done|]).
  split; [intros k v Hk; by apply lookup_union_Some_l|].
  split.
  - rewrite lookup_union_r by done. rewrite lookup_insert_ne by js_neq.
    by apply oauthParams0_token.
  - split; [exact Hkey|]. rewrite lookup_union_r by done. by js_lookup.
Qed.

Lemma profileClient_signs_with_user_token_witness :
  ∃ req token,
    sent (exec (@profileClient samplePlatform (js "GET") (js "/food-entries/v2")
                  {[ js "format" := js "json" ]}) authorizedWorld []) = [req]
    ∧ accessToken (oauth1Credentials (server authorizedWorld)) = Some token
    ∧ req_params req !! js "oauth_token" = Some token.
Proof.
  destruct (sent (exec (@profileClient samplePlatform (js "GET") (js "/food-entries/v2")
                          {[ js "format" := js "json" ]}) authorizedWorld []))
    as [|req [|req' l]] eqn:Hsent.
  - vm_compute in Hsent. discriminate Hsent.
  - destruct (@profileClient_signs_with_user_token samplePlatform authorizedWorld
                (js "GET") (js "/food-entries/v2") {[ js "format" := js "json" ]} [] req)
      as (token & secret & key & base & Htoken & _ & _ & _ & _ & _ & _ & Hparam & _).
    + rewrite Hsent. apply list_elem_of_singleton. reflexivity.
    + vm_compute. reflexivity.
    + vm_compute. reflexivity.
    + exists req, token. split; [reflexivity|]. split; [exact Htoken|exact Hparam].
  - vm_compute in Hsent. discriminate Hsent.
Defined.

Lemma guards_pass (w : World) (at_ ats : jsstring) :
  hasApiCredentials (server w) = true →
  accessToken (oauth1Credentials (server w)) = Some at_ →
  accessTokenSecret (oauth1Credentials (server w)) = Some ats →
  truthy at_ = true → truthy ats = true →
  check_auth_status w
  = Done (Returned {| credentials_configured := true; profile_authenticated := true |}) w
  ∧ ensureProfileAuth w = Done (Returned tt) w.
Proof.
  intros Hcred Hat Hats Ht Hs.
  unfold check_auth_status, ensureProfileAuth, bind, ensureApiCredentials.
  rewrite Hcred. simpl. rewrite !Hat, !Hats. simpl. rewrite !Ht, !Hs. done.
Qed.

(** X18: the whole flow: when [start_auth] returns and the [complete_auth] that
    follows returns, the exchange was made with the token that the start
    stored and with the verifier given, the server holds the user token of
    the second answer, [check_auth_status] reports it as authenticated and
    the guard of the profile calls passes. *)
Theorem authorization_flow_authorizes `{!Platform} (w : World) (verifier url : jsstring)
    (tA tB : Z) (rA rB : FetchResult) :
  let started := exec start_auth w [(tA, rA)] in
  let completed := exec (complete_auth verifier) (final started) [(tB, rB)] in
  result started = Some (Returned url) →
  result completed = Some (Returned tt) →
  ∃ tok sec at_ ats,
    grantedToken rA = Some (tok, sec) ∧ grantedToken rB = Some (at_, ats)
    ∧ (∀ req, req ∈ sent completed →
         req_params req !! js "oauth_token" = Some tok
         ∧ req_params req !! js "oauth_verifier" = Some verifier)
    ∧ accessToken (oauth1Credentials (server (final completed))) = Some at_
    ∧ accessTokenSecret (oauth1Credentials (server (final completed))) = Some ats
    ∧ pendingOAuth (server (final completed)) = None
    ∧ check_auth_status (final completed)
      = Done (Returned {| credentials_configured := true; profile_authenticated := true |})
          (final completed)
    ∧ ensureProfileAuth (final completed) = Done (Returned tt) (final completed).
Proof.
  intros started completed Hstart Hcomplete. subst completed.
  destruct (start_auth_returned w tA rA [] url Hstart)
    as (Hcred & tok & sec & HrA & _ & Hfinal).
  fold started in Hfinal.
  destruct (complete_auth_returned (final started) verifier tB rB [] Hcomplete)
    as (at_ & ats & HrB & Hfinal').
  destruct (grantedToken_truthy rA tok sec HrA) as [Htok _].
  destruct (grantedToken_truthy rB at_ ats HrB) as [Hat Hats].
  exists tok, sec, at_, ats. split; [exact HrA|]. split; [exact HrB|]. split.
  { intros req Hreq.
    assert (Hpending : pendingOAuth (server (final started)) = Some (tok, sec))
      by by rewrite Hfinal.
    destruct (complete_auth_requests _ verifier tok sec _ req Hpending Hreq)
      as (_ & Hp & Hv & _). split; [by apply Hp|exact Hv]. }
  rewrite Hfinal', Hfinal.
  split; [reflexivity|]. split; [reflexivity|]. split; [reflexivity|].
  by apply (guards_pass _ at_ ats).
Qed.

Lemma authorization_flow_authorizes_witness :
  let started := exec (@start_auth samplePlatform) sampleWorld
                   [(1700000001000%Z, tokenAnswer (js "rt") (js "rs"))] in
  let completed := exec (@complete_auth samplePlatform (js "123456")) (final started)
                     [(1700000002000%Z, tokenAnswer (js "at") (js "ats"))] in
  check_auth_status (final completed)
  = Done (Returned {| credentials_configured := true; profile_authenticated := true |})
      (final completed).
Proof.
  intros started completed.
  destruct (@authorization_flow_authorizes samplePlatform sampleWorld (js "123456")
              (OAuth1.AUTHORIZE_URL ++ js "?oauth_token=" ++ js "rt")
              1700000001000%Z 1700000002000%Z
              (tokenAnswer (js "rt") (js "rs")) (tokenAnswer (js "at") (js "ats")))
    as (tok & sec & at_ & ats & _ & _ & _ & _ & _ & _ & Hstatus & _).
  - vm_compute. reflexivity.
  - vm_compute. reflexivity.
  - exact Hstatus.
Defined.


(** ** The credential store across calls and restarts *)

(** X19: successive saves lay their updates over the file one after the other:
    a field has the value of the last save that names it, and otherwise
    the value it had; saving the same update twice is saving it once, and
    no save touches the server. *)
Theorem saveConfig_composes (u1 u2 : Params) (w : World) :
  let once := final (exec (saveConfig u1) w []) in
  let twice := final (exec (saveConfig u2) once []) in
  (∃ merged : Params,
     disk twice = Some merged
     ∧ (∀ k v, u2 !! k = Some v → merged !! k = Some v)
     ∧ (∀ k v, u2 !! k = None → u1 !! k = Some v → merged !! k = Some v)
     ∧ (∀ k, u2 !! k = None → u1 !! k = None → merged !! k = default ∅ (disk w) !! k))
  ∧ final (exec (saveConfig u1) once []) = once
  ∧ server twice = server w.
Proof.
  intros once twice. subst once twice. unfold exec, saveConfig. simpl.
  split; [|split; [|reflexivity]].
  - eexists. split; [reflexivity|].
    split; [intros k v Hk; by apply lookup_union_Some_l|].
    split.
    + intros k v Hk2 Hk1. rewrite lookup_union_r by done. by apply lookup_union_Some_l.
    + intros k Hk2 Hk1. by rewrite !lookup_union_r.
  - unfold set_disk. simpl. by rewrite (assoc_L (∪)), (idemp_L (∪)).
Qed.

(** X20: [setup_credentials] is idempotent, as its annotation says: a second
    call with the same three values changes nothing. *)
Theorem setup_credentials_idempotent (client_id client_secret consumer_secret : jsstring)
    (w : World) :
  let once := final (exec (setup_credentials client_id client_secret consumer_secret) w []) in
  exec (setup_credentials client_id client_secret consumer_secret) once []
  = {| result := Some (Returned tt); final := once; sent := [] |}.
Proof.
  intros once. subst once. unfold exec, setup_credentials, saveConfig, bind, modify.
  simpl. unfold set_disk, set_server. simpl.
  by rewrite (assoc_L (∪)), (idemp_L (∪)).
Qed.

(** X21: what [loadConfig] takes from where: a variable of the environment that
    is set and not empty wins over the file; otherwise the value of the
    file is taken (the empty string when the file has none); the consumer
    key is the client identifier; the user token and its secret come from
    the file alone; the bearer cache, the pending token and the file are
    not touched. *)
Theorem loadConfig_sources (env : Env) (w : World) :
  let w' := final (exec (loadConfig env) w []) in
  let file : Params := default ∅ (disk w) in
  result (exec (loadConfig env) w []) = Some (Returned tt)
  ∧ (∀ v, FATSECRET_CLIENT_ID env = Some v → truthy v = true → clientId (server w') = v)
  ∧ (∀ v, FATSECRET_CLIENT_SECRET env = Some v → truthy v = true →
          clientSecret (server w') = v)
  ∧ (∀ v, FATSECRET_CONSUMER_SECRET env = Some v → truthy v = true →
          consumerSecret (oauth1Credentials (server w')) = v)
  ∧ (otruthy (FATSECRET_CLIENT_ID env) = false →
     clientId (server w') = or_empty (file !! js "clientId"))
  ∧ (otruthy (FATSECRET_CLIENT_SECRET env) = false →
     clientSecret (server w') = or_empty (file !! js "clientSecret"))
  ∧ (otruthy (FATSECRET_CONSUMER_SECRET env) = false →
     consumerSecret (oauth1Credentials (server w')) = or_empty (file !! js "consumerSecret"))
  ∧ consumerKey (oauth1Credentials (server w')) = clientId (server w')
  ∧ accessToken (oauth1Credentials (server w')) = file !! js "accessToken"
  ∧ accessTokenSecret (oauth1Credentials (server w')) = file !! js "accessTokenSecret"
  ∧ oauth2Token (server w') = oauth2Token (server w)
  ∧ pendingOAuth (server w') = pendingOAuth (server w)
  ∧ disk w' = disk w.
Proof.
  intros w' file. subst w' file. unfold exec, loadConfig, bind, modify. simpl.
  assert (Hwin : ∀ a b v, a = Some v → truthy v = true → firstTruthy a b = v).
  { intros a b v -> Hv. unfold firstTruthy. simpl. by rewrite Hv. }
  assert (Hfile : ∀ a b, otruthy a = false → firstTruthy a b = or_empty b).
  { intros a b Ha. unfold firstTruthy. rewrite Ha.
    destruct b as [[|c b]|]; reflexivity. }
  repeat split; eauto.
Qed.


(** X22: credentials given to [setup_credentials] survive a restart: a server
    constructed later over the file it wrote, with no variable set in the
    environment, has exactly these credentials, and the user token that the
    file held before. *)
Theorem setup_credentials_survives_restart
    (client_id client_secret consumer_secret : jsstring) (w w2 : World) (env : Env) :
  disk w2 = disk (final (exec (setup_credentials client_id client_secret consumer_secret) w [])) →
  otruthy (FATSECRET_CLIENT_ID env) = false →
  otruthy (FATSECRET_CLIENT_SECRET env) = false →
  otruthy (FATSECRET_CONSUMER_SECRET env) = false →
  let restarted := final (exec (constructor env) w2 []) in
  clientId (server restarted) = client_id
  ∧ clientSecret (server restarted) = client_secret
  ∧ consumerKey (oauth1Credentials (server restarted)) = client_id
  ∧ consumerSecret (oauth1Credentials (server restarted)) = consumer_secret
  ∧ accessToken (oauth1Credentials (server restarted))
    = default ∅ (disk w) !! js "accessToken"
  ∧ accessTokenSecret (oauth1Credentials (server restarted))
    = default ∅ (disk w) !! js "accessTokenSecret"
  ∧ oauth2Token (server restarted) = None
  ∧ pendingOAuth (server restarted) = None.
Proof.
  intros Hdisk He1 He2 He3 restarted. subst restarted.
  unfold exec, constructor, loadConfig, bind, modify in *. simpl in *.
  rewrite Hdisk. simpl.
  assert (Hfile : ∀ a b, otruthy a = false → firstTruthy a b = or_empty b).
  { intros a b Ha. unfold firstTruthy. rewrite Ha.
    destruct b as [[|c b]|]; reflexivity. }
  rewrite !Hfile by done.
  rewrite !(lookup_union_r _ _ (js "accessToken")),
    !(lookup_union_r _ _ (js "accessTokenSecret")) by by js_lookup.
  assert (Hlook : ∀ k v (m1 m2 : Params), m1 !! k = Some v → or_empty ((m1 ∪ m2) !! k) = v).
  { intros k v m1 m2 Hk. by rewrite (lookup_union_Some_l _ _ _ _ Hk). }
  rewrite !(Hlook (js "clientId") client_id), !(Hlook (js "clientSecret") client_secret),
    !(Hlook (js "consumerSecret") consumer_secret) by by js_lookup.
  done.
Qed.

Lemma setup_credentials_survives_restart_witness :
  let saved := final (exec (setup_credentials (js "id") (js "secret") (js "consumer"))
                        blankWorld []) in
  clientId (server (final (exec (constructor noEnv) (set_server blankServer saved) [])))
  = js "id".
Proof.
  intros saved.
  destruct (setup_credentials_survives_restart (js "id") (js "secret") (js "consumer")
              blankWorld (set_server blankServer saved) noEnv
              eq_refl eq_refl eq_refl eq_refl)
    as (Hid & _).
  exact Hid.
Defined.

(** X23: the user token stored by [complete_auth] survives a restart: a server
    constructed later over the file it wrote holds the token and its
    secret, whatever the environment sets. *)
Theorem complete_auth_survives_restart `{!Platform} (w w2 : World) (verifier : jsstring)
    (t : Z) (r : FetchResult) (net : list (Z * FetchResult)) (env : Env) :
  let run := exec (complete_auth verifier) w ((t, r) :: net) in
  result run = Some (Returned tt) →
  disk w2 = disk (final run) →
  let restarted := final (exec (constructor env) w2 []) in
  accessToken (oauth1Credentials (server restarted))
  = accessToken (oauth1Credentials (server (final run)))
  ∧ accessTokenSecret (oauth1Credentials (server restarted))
    = accessTokenSecret (oauth1Credentials (server (final run)))
  ∧ otruthy (accessToken (oauth1Credentials (server restarted))) = true
  ∧ otruthy (accessTokenSecret (oauth1Credentials (server restarted))) = true.
Proof.
  intros run Hres Hdisk restarted. subst run restarted.
  destruct (complete_auth_returned w verifier t r net Hres) as (at_ & ats & Hr & Hfinal).
  rewrite Hfinal in Hdisk |- *.
  destruct (grantedToken_truthy r at_ ats Hr) as [Hat Hats].
  unfold exec, constructor, loadConfig, bind, modify. simpl. rewrite Hdisk. simpl.
  rewrite (lookup_union_Some_l _ _ (js "accessToken") at_) by by js_lookup.
  rewrite (lookup_union_Some_l _ _ (js "accessTokenSecret") ats) by by js_lookup.
  done.
Qed.

Lemma complete_auth_survives_restart_witness :
  let run := exec (@complete_auth samplePlatform (js "123456")) pendingWorld
               [(1700000001000%Z, tokenAnswer (js "at") (js "ats"))] in
  accessToken (oauth1Credentials
                 (server (final (exec (constructor noEnv)
                                   (set_server blankServer (final run)) []))))
  = accessToken (oauth1Credentials (server (final run))).
Proof.
  intros run.
  destruct (@complete_auth_survives_restart samplePlatform pendingWorld
              (set_server blankServer (final run)) (js "123456") 1700000001000%Z
              (tokenAnswer (js "at") (js "ats")) [] noEnv) as (Htoken & _).
  - vm_compute. reflexivity.
  - reflexivity.
  - exact Htoken.
Defined.

(** ** Sessions and routing *)

Import HttpFront.

(** X24: a session that has been initialized is the one that requests naming
    its identifier are handed to, requests naming another identifier are
    routed as before, and closing a session that was new gives the
    registry back as it was. *)
Theorem session_round_trip (sessions : Sessions) (id : jsstring) (session : Session) :
  truthy id = true →
  let opened := onsessioninitialized id session sessions in
  handleMcpRequest opened (Some id) = HandledBy session
  ∧ (∀ other, other ≠ Some id →
       handleMcpRequest opened other = handleMcpRequest sessions other)
  ∧ (sessions !! id = None → onclose (Some id) opened = sessions).
Proof.
  intros Hid opened. subst opened. unfold handleMcpRequest, onsessioninitialized, onclose.
  simpl. rewrite Hid. split; [by rewrite lookup_insert_eq|]. split.
  - intros [other|] Hne; [|done]. simpl.
    destruct (truthy other); [|done].
    rewrite lookup_insert_ne; [done|]. by intros ->.
  - intros Hnew. rewrite delete_insert_eq. by apply delete_id.
Qed.

Lemma session_round_trip_witness :
  handleMcpRequest
    (onsessioninitialized (js "s1")
       {| session_server := sampleServer; transport_sessionId := Some (js "s1") |} ∅)
    (Some (js "s1"))
  = HandledBy {| session_server := sampleServer; transport_sessionId := Some (js "s1") |}.
Proof.
  destruct (session_round_trip ∅ (js "s1")
              {| session_server := sampleServer; transport_sessionId := Some (js "s1") |}
              eq_refl) as (Hroute & _).
  exact Hroute.
Defined.

(** X25: the number that the health check reports is the number of sessions
    that were initialized and not closed: a session with a new identifier
    adds one, one that takes an identifier in use adds none, closing a
    registered session takes one away, and closing a transport that has no
    identifier or an unregistered one changes nothing. *)
Theorem health_counts_open_sessions (sessions : Sessions) (id : jsstring) (session : Session) :
  (handleHealthRequest sessions).2 = getSessionCount sessions
  ∧ (sessions !! id = None →
       getSessionCount (onsessioninitialized id session sessions)
       = S (getSessionCount sessions))
  ∧ (is_Some (sessions !! id) →
       getSessionCount (onsessioninitialized id session sessions) = getSessionCount sessions)
  ∧ (is_Some (sessions !! id) → truthy id = true →
       S (getSessionCount (onclose (Some id) sessions)) = getSessionCount sessions)
  ∧ (sessions !! id = None → onclose (Some id) sessions = sessions)
  ∧ onclose None sessions = sessions.
Proof.
  unfold handleHealthRequest, getSessionCount, onsessioninitialized, onclose. simpl.
  split; [reflexivity|]. split; [intros Hnew; by apply map_size_insert_None|].
  split; [intros Hold; by apply map_size_insert_Some|]. split.
  - intros [s Hs] ->. rewrite (map_size_delete id sessions), Hs.
    assert (size sessions ≠ 0%nat); [|lia].
    intros H0%map_size_empty_iff. by rewrite H0, lookup_empty in Hs.
  - split; [|reflexivity]. intros Hnone. destruct (truthy id); [|done].
    by apply delete_id.
Qed.

Section Router.
Context {J A B : Type}.
Variable JSON_parse : jsstring → option J.
Variable mcpHandler : HttpRequest → option J → A.
Variable healthHandler : HttpRequest → B.


(** X27: when the listener calls a handler: the health handler for a [GET] on
    [/health] and for nothing else; the MCP handler for every method but
    [OPTIONS] on [/mcp], and for a [POST] only when its body is JSON, which
    is then handed over; to the other methods no body is attached. *)
Theorem createServer_reaches_handlers (req : HttpRequest) :
  let reply := createServer JSON_parse mcpHandler healthHandler req in
  ((∃ b, reply = ByHealthHandler b) ↔
     pathname req = js "/health" ∧ http_method req = js "GET")
  ∧ (∀ a, reply = ByMcpHandler a →
       pathname req = js "/mcp" ∧ http_method req ≠ js "OPTIONS"
       ∧ ((http_method req = js "POST"
           ∧ ∃ body, rawBody req ≫= JSON_parse = Some body ∧ a = mcpHandler req (Some body))
          ∨ (http_method req ≠ js "POST" ∧ a = mcpHandler req None)))
  ∧ (pathname req = js "/mcp" → http_method req ≠ js "OPTIONS" →
     (http_method req = js "POST" → is_Some (rawBody req ≫= JSON_parse)) →
     ∃ a, reply = ByMcpHandler a).
Proof.
  intros reply. subst reply. unfold createServer.
  destruct (decide (http_method req = js "OPTIONS")) as [Ho|Ho].
  { split; [|split]; [| done | done].
    split; [by intros [b Hb]|]. intros [_ Hm]. rewrite Hm in Ho. by vm_compute in Ho. }
  destruct (bool_decide (pathname req = js "/health")
            && bool_decide (http_method req = js "GET")) eqn:Hh.
  { apply andb_true_iff in Hh as [Hp%bool_decide_eq_true Hm%bool_decide_eq_true].
    split; [split; [done|eauto]|]. split; [done|].
    intros Hp'. rewrite Hp' in Hp. by vm_compute in Hp. }
  assert (Hh' : ¬ (pathname req = js "/health" ∧ http_method req = js "GET")).
  { intros [Hp Hm]. by rewrite !bool_decide_eq_true_2 in Hh. }
  destruct (decide (pathname req = js "/mcp")) as [Hp|Hp].
  - destruct (decide (http_method req = js "POST")) as [Hm|Hm].
    + destruct (rawBody req ≫= JSON_parse) as [body|] eqn:Hb.
      * split; [split; [by intros [b Hb']|done]|]. split; [|eauto].
        intros a [= <-]. eauto 10.
      * split; [split; [by intros [b Hb']|done]|]. split; [done|].
        intros _ _ Hsome. by destruct (Hsome Hm).
    + split; [split; [by intros [b Hb']|done]|]. split; [|eauto].
      intros a [= <-]. eauto.
  - split; [split; [by intros [b Hb']|done]|]. split; done.
Qed.
End Router.

(** X28: the server as it is started.  A [POST] on [/mcp] whose body is no JSON
    gets the parse error whatever session it names, registered or not: the
    body is parsed before the session is looked up.  One whose body is JSON
    is routed by the session it names: handed to the session when that is
    registered, answered with the 404 "Session not found" when it is not,
    and opening a new session when it names none. *)
Theorem startServer_routes_post {J} (JSON_parse : jsstring → option J)
    (sessions : Sessions) (req : HttpRequest) :
  http_method req = js "POST" →
  pathname req = js "/mcp" →
  (rawBody req ≫= JSON_parse = None → startServer JSON_parse sessions req = ParseError)
  ∧ (is_Some (rawBody req ≫= JSON_parse) →
     (∀ id session, mcp_session_id req = Some id → truthy id = true →
        sessions !! id = Some session →
        startServer JSON_parse sessions req = ByMcpHandler (HandledBy session))
     ∧ (∀ id, mcp_session_id req = Some id → truthy id = true → sessions !! id = None →
        startServer JSON_parse sessions req
        = ByMcpHandler (Answered 404 (-32000)
                          (js "Session not found. Client must reinitialize.")))
     ∧ (otruthy (mcp_session_id req) = false →
        startServer JSON_parse sessions req = ByMcpHandler NewSession)).
Proof.
  intros Hm Hp. unfold startServer, createServer. rewrite Hm, Hp.
  rewrite (decide_False (P := js "POST" = js "OPTIONS")) by by vm_compute.
  rewrite (bool_decide_eq_false_2 (js "/mcp" = js "/health")) by by vm_compute.
  simpl.
  split; [by intros ->|]. intros [body ->]. unfold handleMcpRequest.
  split; [|split].
  - intros id session -> Hid Hs. simpl. by rewrite Hid, Hs.
  - intros id -> Hid Hs. simpl. by rewrite Hid, Hs.
  - by intros ->.
Qed.

Lemma startServer_routes_post_witness :
  startServer sampleParse ∅
    {| http_method := js "POST"; pathname := js "/mcp";
       mcp_session_id := Some (js "nonexistent-session-id");
       rawBody := Some (js "{invalid json") |}
  = ParseError.
Proof.
  destruct (startServer_routes_post sampleParse ∅
              {| http_method := js "POST"; pathname := js "/mcp";
                 mcp_session_id := Some (js "nonexistent-session-id");
                 rawBody := Some (js "{invalid json") |} eq_refl eq_refl)
    as [Hparse _].
  apply Hparse. vm_compute. reflexivity.
Defined.
